(** * Firefox FrameManager: frame tree maintenance and the navigation-wait protocol

    A shallow embedding of [src/firefox/FrameManager.ts].

    - JavaScript strings are [string]s (names and tokens are taken to be ASCII),
      a [Map] is a [gmap], a [Set] is a [gset], objects with identity (frames,
      watchdogs, timers) live in stores and are designated by references.
    - A method that mutates [this] and may throw is a computation in the monad
      [M S], state passing over the store [S] with three outcomes: the call
      returned, it threw, or it is suspended at an [await] for ever.
    - Millisecond counts ([timeout], instants on the clock) are integers. *)

From stdpp Require Import gmap strings list fin_maps pretty.

Local Open Scope Z_scope.

(** ** JavaScript values used by the manager *)

Module JS.

(** The error classes that occur: [Error], [TimeoutError] (from ../Errors)
    and the engine's [TypeError]. *)
Inductive ErrorClass := Error | TimeoutError | TypeError.

Record Exn := mkExn { exn_class : ErrorClass; exn_message : string }.

#[global] Instance ErrorClass_eq_dec : EqDecision ErrorClass.
Proof. solve_decision. Defined.

#[global] Instance Exn_eq_dec : EqDecision Exn.
Proof. solve_decision. Defined.

(** The value of the [timeout] option once defaulted: a number of
    milliseconds, or [null] when the caller passed it. The number is an
    integer; from 2^53 on it is taken to be one a double holds. *)
Inductive Timeout := Millis (n : Z) | Null.

(** The integers every one of which is a number of JavaScript, and which
    print with all their digits: those below 2^53 in absolute value. *)
Definition safe_integer (n : Z) : Prop := - 9007199254740992 < n < 9007199254740992.

Definition decimal_length (n : Z) : Z := Z.of_nat (String.length (pretty n)).

(** [v] rounds to the number [x]: it lies in the interval, given four times
    over to keep to integers, of the reals nearer to [x] than to the numbers
    next to it, ends included when the mantissa of [x] is even. *)
Definition rounds_to (lo4 hi4 : Z) (even_mantissa : bool) (v : Z) : bool :=
  ((lo4 <? 4 * v) && (4 * v <? hi4))
  || (even_mantissa && ((4 * v =? lo4) || (4 * v =? hi4))).

(** The decimal with the fewest digits that rounds to [x], and the nearest to
    [x] among those: with [k] digits, then [k + 1], up to the digits of [x]. *)
Fixpoint shortest_from (fuel : nat) (k x n lo4 hi4 : Z) (even_mantissa : bool) : Z :=
  match fuel with
  | O => x
  | S fuel =>
      let p := 10 ^ (n - k) in
      let s := x / p in
      let v1 := s * p in
      let v2 := (s + 1) * p in
      match rounds_to lo4 hi4 even_mantissa v1, rounds_to lo4 hi4 even_mantissa v2 with
      | true, true =>
          if x - v1 <? v2 - x then v1
          else if v2 - x <? x - v1 then v2
          else if Z.even s then v1 else v2
      | true, false => v1
      | false, true => v2
      | false, false => shortest_from fuel (k + 1) x n lo4 hi4 even_mantissa
      end
  end.

(** For a number [x] that is an integer of at least 2^53: a double with a
    mantissa of 53 bits, the numbers next to it lying [2^(e - 52)] above and
    as much below, or half as much below a power of two. *)
Definition shortest_decimal (x : Z) : Z :=
  let e := Z.log2 x in
  let gap := 2 ^ (e - 52) in
  let mantissa := x / gap in
  let hi4 := 4 * x + 2 * gap in
  let lo4 := 4 * x - (if mantissa =? 2 ^ 52 then gap else 2 * gap) in
  let n := decimal_length x in
  shortest_from (Z.to_nat n) 1 x n lo4 hi4 (Z.even mantissa).

Fixpoint strip_zeros (fuel : nat) (v : Z) : Z :=
  match fuel with
  | O => v
  | S fuel => if (0 <? v) && (v mod 10 =? 0) then strip_zeros fuel (v / 10) else v
  end.

(** [Number::toString] for a number that is a positive integer: all its digits
    below 2^53; from there on the shortest decimal that rounds to it, written
    out in full below 10^21 and with an exponent from 10^21 on. *)
Definition Number_toString_positive (x : Z) : string :=
  if x <? 9007199254740992 then pretty x
  else
    let v := shortest_decimal x in
    let n := decimal_length v in
    if n <=? 21 then pretty v
    else
      match pretty (strip_zeros (Z.to_nat n) v) with
      | String digit rest =>
          String digit (if bool_decide (rest = "") then "" else "." +:+ rest)
          +:+ "e+" +:+ pretty (n - 1)
      | EmptyString => ""
      end.

(** ['' + timeout], for a timeout that is an integral number or [null]; the
    numbers with a fraction, [NaN] and the infinities are outside the model. *)
Definition Number_toString (timeout : Timeout) : string :=
  match timeout with
  | Millis n =>
      if bool_decide (safe_integer n) then pretty n
      else if n <? 0 then "-" +:+ Number_toString_positive (- n)
      else Number_toString_positive n
  | Null => "null"
  end.

(** Truthiness: every number but zero (NaN is not an integer); [null] is
    falsy. *)
Definition truthy (timeout : Timeout) : bool :=
  match timeout with
  | Millis n => bool_decide (n ≠ 0)
  | Null => false
  end.

(** The number given to [setTimeout] as its second argument: the timeout
    itself; what the timer makes of it is [timer_delay] below. *)
Definition to_delay (timeout : Timeout) : Z :=
  match timeout with
  | Millis n => n
  | Null => 0
  end.

Definition lower_ascii (c : Ascii.ascii) : Ascii.ascii :=
  let n := Ascii.nat_of_ascii c in
  if ((65 <=? n)%nat && (n <=? 90)%nat)%bool then Ascii.ascii_of_nat (n + 32) else c.

(** [String.prototype.toLowerCase] on ASCII text. *)
Fixpoint toLowerCase (s : string) : string :=
  match s with
  | EmptyString => EmptyString
  | String c rest => String (lower_ascii c) (toLowerCase rest)
  end.

(** [text] occurs inside [s]. *)
Definition contains (s text : string) : Prop :=
  ∃ before after : string, s = before +:+ text +:+ after.

(** The error thrown by dereferencing [undefined]; the wording of the
    message is the engine's and nothing below depends on it. *)
Definition undefined_deref (property : string) : Exn :=
  mkExn TypeError ("Cannot read property '" +:+ property +:+ "' of undefined").

End JS.

Import JS.

(** ** Computations over a store *)

Inductive Outcome (A : Type) : Type :=
  | Returned (a : A)
  | Threw (e : Exn)
  | Suspended.

Arguments Returned {A} a.
Arguments Threw {A} e.
Arguments Suspended {A}.

Definition M (S A : Type) : Type := S → Outcome A * S.

#[global] Instance M_ret {S} : MRet (M S) := λ A a s, (Returned a, s).

#[global] Instance M_bind {S} : MBind (M S) := λ A B k m s,
  match m s with
  | (Returned a, s') => k a s'
  | (Threw e, s') => (Threw e, s')
  | (Suspended, s') => (Suspended, s')
  end.

Definition throw {S A} (e : Exn) : M S A := λ s, (Threw e, s).
Definition get {S} : M S S := λ s, (Returned s, s).
Definition modify {S} (f : S → S) : M S () := λ s, (Returned (), f s).

(** Dereference of a possibly [undefined] object. *)
Definition deref {S A} (property : string) (o : option A) : M S A :=
  match o with
  | Some a => mret a
  | None => throw (undefined_deref property)
  end.

(** ** normalizeWaitUntil *)

(** The [waitUntil] option: [string | Array<string>]. *)
Inductive WaitUntil :=
  | Token (condition : string)
  | Tokens (conditions : list string).

(** The [for (const condition of waitUntil)] loop: the first unknown
    condition throws. *)
Fixpoint check_conditions (waitUntil : list string) : option Exn :=
  match waitUntil with
  | [] => None
  | condition :: rest =>
      if bool_decide (condition ≠ "load") && bool_decide (condition ≠ "domcontentloaded")
      then Some (mkExn Error ("Unknown waitUntil condition: " +:+ condition))
      else check_conditions rest
  end.

Definition normalizeWaitUntil (waitUntil : WaitUntil) : Exn + list string :=
  let waitUntil :=
    match waitUntil with
    | Token condition => [condition]
    | Tokens conditions => conditions
    end in
  match check_conditions waitUntil with
  | Some e => inl e
  | None => inr waitUntil
  end.

Definition of_sum {S A} (r : Exn + A) : M S A :=
  match r with
  | inl e => throw e
  | inr a => mret a
  end.

(** ** Frames *)

Abbreviation FrameRef := nat (only parsing).

(** A navigation identifier as the protocol delivers it: absent ([null] or
    [undefined]) or a string; absent and the empty string are falsy. *)
Abbreviation NavigationId := (option string) (only parsing).

Definition falsy_id (navigationId : NavigationId) : bool :=
  match navigationId with
  | None => true
  | Some s => bool_decide (s = "")
  end.

(** [type FrameData] *)
Record FrameData := mkFrameData {
  frameId : string;
  lastCommittedNavigationId : NavigationId;
  firedEvents : gset string;
}.

(** Modelled from the spec: the class [frames.Frame] (../frames) is not part of
    the sources. A frame holds an optional parent reference, the ordered
    collection of its child frames, its current url and name, a detached mark,
    and the script contexts bound to it under the roles main and utility.
    [frame_data] is the side data stashed under [frameDataSymbol]. *)
Record Frame := mkFrame {
  parentFrame : option FrameRef;
  childFrames : list FrameRef;
  frame_url : string;
  frame_name : string;
  detached : bool;
  frame_contexts : list (string * string);
  frame_data : FrameData;
}.

Module Frame.

(** Modelled from the spec: [new frames.Frame(delegate, timeoutSettings,
    parentFrame)], before it is linked into its parent's child collection. *)
Definition new (parent : option FrameRef) (data : FrameData) : Frame :=
  mkFrame parent [] "" "" false [] data.

(** Modelled from the spec: [_navigated(url, name)] updates url and name. *)
Definition _navigated (url name : string) (f : Frame) : Frame :=
  mkFrame (parentFrame f) (childFrames f) url name (detached f)
          (frame_contexts f) (frame_data f).

(** Modelled from the spec: [_detach()] marks the frame detached. *)
Definition _detach (f : Frame) : Frame :=
  mkFrame (parentFrame f) (childFrames f) (frame_url f) (frame_name f) true
          (frame_contexts f) (frame_data f).

(** Modelled from the spec: [_contextDestroyed(context)] unbinds the context
    from every role it was bound under. *)
Definition _contextDestroyed (contextId : string) (f : Frame) : Frame :=
  mkFrame (parentFrame f) (childFrames f) (frame_url f) (frame_name f) (detached f)
          (filter (λ rc, rc.2 ≠ contextId) (frame_contexts f)) (frame_data f).

Definition add_child (child : FrameRef) (f : Frame) : Frame :=
  mkFrame (parentFrame f) (childFrames f ++ [child]) (frame_url f) (frame_name f)
          (detached f) (frame_contexts f) (frame_data f).

Definition set_data (data : FrameData) (f : Frame) : Frame :=
  mkFrame (parentFrame f) (childFrames f) (frame_url f) (frame_name f)
          (detached f) (frame_contexts f) data.

End Frame.

(** ** The manager's state *)

(** [FrameManagerEvents] with their payload. *)
Inductive FrameManagerEvent :=
  | FrameNavigated (frame : FrameRef)
  | FrameAttached (frame : FrameRef)
  | FrameDetached (frame : FrameRef)
  | Load
  | DOMContentLoaded.

(** Modelled from the spec: [js.ExecutionContext] (../javascript) is not part
    of the sources; [frame()] yields the owning frame or [null]. *)
Record ExecutionContext := mkContext { context_frame : option FrameRef }.

(** The fields of [FrameManager] that the handlers and the wait protocol read
    or write. [objects] is the store of the frame objects ever constructed, a
    [FrameRef] is an index into it; [emitted] lists the events passed to
    [this.emit], oldest first; [navigationTimeout] is what
    [this._timeoutSettings.navigationTimeout()] answers. *)
Record FrameManager := mkFrameManager {
  navigationTimeout : Z;
  _mainFrame : option FrameRef;
  _frames : gmap string FrameRef;
  _contextIdToContext : gmap string ExecutionContext;
  objects : list Frame;
  emitted : list FrameManagerEvent;
}.

Definition set_mainFrame (v : option FrameRef) (m : FrameManager) : FrameManager :=
  mkFrameManager (navigationTimeout m) v (_frames m) (_contextIdToContext m)
                 (objects m) (emitted m).

Definition set_frames (v : gmap string FrameRef) (m : FrameManager) : FrameManager :=
  mkFrameManager (navigationTimeout m) (_mainFrame m) v (_contextIdToContext m)
                 (objects m) (emitted m).

Definition set_contexts (v : gmap string ExecutionContext) (m : FrameManager) : FrameManager :=
  mkFrameManager (navigationTimeout m) (_mainFrame m) (_frames m) v
                 (objects m) (emitted m).

Definition set_objects (v : list Frame) (m : FrameManager) : FrameManager :=
  mkFrameManager (navigationTimeout m) (_mainFrame m) (_frames m) (_contextIdToContext m)
                 v (emitted m).

(** [this.emit(event, ...)] *)
Definition emit (e : FrameManagerEvent) : M FrameManager () :=
  modify (λ m, mkFrameManager (navigationTimeout m) (_mainFrame m) (_frames m)
                              (_contextIdToContext m) (objects m) (emitted m ++ [e])).

(** A reference always designates an object of [objects]: the store only
    grows, and references come from allocation alone. A method call
    [frame.method(...)] mutates the designated object in place and throws the
    engine's [TypeError] when the receiver is [undefined]. *)
Definition call_on (method : string) (frame : option FrameRef) (f : Frame → Frame)
  : M FrameManager FrameRef :=
  r ← deref method frame;
  modify (λ m, set_objects (alter f r (objects m)) m);;
  mret r.

(** [this._frameData(frame)] followed by a mutation of the data object it
    yields, which the frame shares. *)
Definition on_frameData (frame : option FrameRef) (f : FrameData → FrameData)
  : M FrameManager FrameRef :=
  call_on "Symbol(frameData)" frame (λ o, Frame.set_data (f (frame_data o)) o).

(** [data.lastCommittedNavigationId = navigationId; data.firedEvents.clear()] *)
Definition commit (navigationId : NavigationId) (data : FrameData) : FrameData :=
  let '(mkFrameData id _ _) := data in mkFrameData id navigationId ∅.

(** [data.firedEvents.add(name)] *)
Definition add_fired (name : string) (data : FrameData) : FrameData :=
  let '(mkFrameData id committed fired) := data in
  mkFrameData id committed ({[name]} ∪ fired).

(** Modelled from the spec: [assert] (../helper) is not part of the sources;
    a failed assertion is fatal, it throws an [Error] with the given message. *)
Definition assert {S} (value : bool) (message : string) : M S () :=
  if value then mret () else throw (mkExn Error message).

(** Modelled from the spec: the constructor of [frames.Frame] inserts the new
    frame into its parent's child collection. This is
    [new frames.Frame(this, this._timeoutSettings, parentFrame)] followed by
    [frame[frameDataSymbol] = data]; the object is allocated at the end of the
    store. *)
Definition new_Frame (parent : option FrameRef) (data : FrameData) : M FrameManager FrameRef :=
  m ← get;
  let r := length (objects m) in
  let linked :=
    match parent with
    | Some p => alter (Frame.add_child r) p (objects m)
    | None => objects m
    end in
  modify (set_objects (linked ++ [Frame.new parent data]));;
  mret r.

(** ** The notification handlers *)

Definition _onExecutionContextDestroyed (executionContextId : string) : M FrameManager () :=
  this ← get;
  match _contextIdToContext this !! executionContextId with
  | None => mret ()
  | Some context =>
      modify (λ m, set_contexts (delete executionContextId (_contextIdToContext m)) m);;
      match context_frame context with
      | Some owner =>
          call_on "_contextDestroyed" (Some owner) (Frame._contextDestroyed executionContextId);;
          mret ()
      | None => mret ()
      end
  end.

Definition _onNavigationCommitted (frameId url name : string) (navigationId : NavigationId)
  : M FrameManager () :=
  this ← get;
  let frame := _frames this !! frameId in
  call_on "_navigated" frame (Frame._navigated url name);;
  on_frameData frame (commit navigationId);;
  r ← deref "frame" frame;
  emit (FrameNavigated r).

Definition _onSameDocumentNavigation (frameId url : string) : M FrameManager () :=
  this ← get;
  let frame := _frames this !! frameId in
  r ← call_on "_navigated" frame (λ o, Frame._navigated url (frame_name o) o);
  emit (FrameNavigated r).

Definition _onFrameAttached (frameId : string) (parentFrameId : option string)
  : M FrameManager () :=
  this ← get;
  let parentFrame := parentFrameId ≫= (_frames this !!.) in
  let data := mkFrameData frameId (Some "") ∅ in
  frame ← new_Frame parentFrame data;
  match parentFrame with
  | None =>
      this ← get;
      assert (bool_decide (_mainFrame this = None)) "INTERNAL ERROR: re-attaching main frame!";;
      modify (set_mainFrame (Some frame))
  | Some _ => mret ()
  end;;
  modify (λ m, set_frames (<[frameId := frame]> (_frames m)) m);;
  emit (FrameAttached frame).

Definition _onFrameDetached (frameId : string) : M FrameManager () :=
  this ← get;
  let frame := _frames this !! frameId in
  modify (λ m, set_frames (delete frameId (_frames m)) m);;
  r ← call_on "_detach" frame Frame._detach;
  emit (FrameDetached r).

Definition _onEventFired (frameId name : string) : M FrameManager () :=
  this ← get;
  let frame := _frames this !! frameId in
  on_frameData frame (add_fired (toLowerCase name));;
  this ← get;
  if bool_decide (frame = _mainFrame this) then
    if bool_decide (name = "load") then emit Load
    else if bool_decide (name = "DOMContentLoaded") then emit DOMContentLoaded
    else mret ()
  else mret ().

(** ** The world of a pending wait: clock, timers, watchdogs *)

(** Modelled from the spec: the navigation's response object (../network) is
    opaque here; it is designated by a name. *)
Abbreviation Response := string (only parsing).

(** Modelled from the spec: the classes [NextNavigationWatchdog] and
    [NavigationWatchdog] (./NavigationWatchdog) are not part of the sources.
    A watchdog is constructed on a frame, for a [NavigationWatchdog] with the
    navigation identifier, the url and the normalized conditions in [wd_target];
    it exposes an awaitable outcome that resolves to an error value or to an
    absent value, [wd_resolves] being the instant and the value, chosen by the
    browser ([None]: never); [dispose()] unsubscribes it, so that it can no
    longer resolve; once resolved, [navigation()] yields the discovered pair
    [wd_navigation] and [navigationResponse()] yields [wd_response]. *)
Record Watchdog := mkWatchdog {
  wd_frame : FrameRef;
  wd_target : option (NavigationId * string * list string);
  wd_resolves : option (Z * option Exn);
  wd_navigation : option (NavigationId * string);
  wd_response : option Response;
  wd_disposed : bool;
}.

(** What the browser does while a call is pending, each with its instant on the
    clock: the reply to [Page.navigate] (a rejection or the navigation
    identifier), the next navigation of the frame which the
    [NextNavigationWatchdog] discovers (its promise resolves with no value),
    and the outcome of the tracked navigation. [None] is an event that never
    comes. *)
Record Env := mkEnv {
  navigate_reply : option (Z * (Exn + NavigationId));
  next_navigation : option (Z * (NavigationId * string));
  navigation_outcome : option (Z * option Exn);
  navigation_response : option Response;
}.

(** The calls that reach the session, the timers and the watchdogs, in order. *)
Inductive Effect :=
  | Sent (method frameId : string) (referer : option string) (url : string)
  | SetTimeout (id : nat) (delay : Z)
  | ClearTimeout (id : option nat)
  | Created (dog : nat)
  | Disposed (dog : nat).

#[global] Instance Effect_eq_dec : EqDecision Effect.
Proof. solve_decision. Defined.

(** [timers] holds the pending timers with their deadlines: a timer leaves it
    when it fires or is cleared. A timer or watchdog identifier is its rank of
    creation. *)
Record World := mkWorld {
  now : Z;
  timers : gmap nat Z;
  timer_count : nat;
  watchdogs : list Watchdog;
  effects : list Effect;
}.

Definition log (e : Effect) : M World () :=
  modify (λ w, mkWorld (now w) (timers w) (timer_count w) (watchdogs w) (effects w ++ [e])).

(** The clock never runs backwards: an event whose instant is past has
    already happened when it is awaited. *)
Definition advance (instant : Z) : M World () :=
  modify (λ w, mkWorld (now w `max` instant) (timers w) (timer_count w) (watchdogs w) (effects w)).

(** The delay a timer of Node runs for: the delay asked for when it lies
    between 1 and [TIMEOUT_MAX], 2^31 - 1, and 1 ms otherwise. *)
Definition timer_delay (delay : Z) : Z :=
  if bool_decide (1 ≤ delay ≤ 2147483647) then delay else 1.

Arguments timer_delay : simpl never.

(** [setTimeout(callback, delay)] *)
Definition setTimeout (delay : Z) : M World nat :=
  w ← get;
  let id := timer_count w in
  modify (λ w, mkWorld (now w) (<[id := now w + timer_delay delay]> (timers w)) (S id)
                       (watchdogs w) (effects w));;
  log (SetTimeout id delay);;
  mret id.

(** [clearTimeout(timeoutId)]; [clearTimeout(null)] does nothing. *)
Definition clearTimeout (timeoutId : option nat) : M World () :=
  modify (λ w, mkWorld (now w)
                       (match timeoutId with Some id => delete id (timers w) | None => timers w end)
                       (timer_count w) (watchdogs w) (effects w));;
  log (ClearTimeout timeoutId).

Definition new_watchdog (dog : Watchdog) : M World nat :=
  w ← get;
  let id := length (watchdogs w) in
  modify (λ w, mkWorld (now w) (timers w) (timer_count w) (watchdogs w ++ [dog]) (effects w));;
  log (Created id);;
  mret id.

(** Modelled from the spec: [new NextNavigationWatchdog(this, frame)]; its
    promise resolves, with no value, when the browser reports the next
    navigation of the frame, which [navigation()] then yields. *)
Definition new_NextNavigationWatchdog (env : Env) (frame : FrameRef) : M World nat :=
  new_watchdog
    (mkWatchdog frame None
                ((λ r, (r.1, None)) <$> next_navigation env)
                (snd <$> next_navigation env) None false).

(** Modelled from the spec: [new NavigationWatchdog(this, frame,
    this._networkManager, navigationId, url, normalizedWaitUntil)]; its promise
    resolves with the outcome of the tracked navigation. *)
Definition new_NavigationWatchdog (env : Env) (frame : FrameRef)
    (navigationId : NavigationId) (url : string) (normalizedWaitUntil : list string)
  : M World nat :=
  new_watchdog
    (mkWatchdog frame (Some (navigationId, url, normalizedWaitUntil))
                (navigation_outcome env) None (navigation_response env) false).

Definition dispose_watchdog (d : Watchdog) : Watchdog :=
  mkWatchdog (wd_frame d) (wd_target d) (wd_resolves d) (wd_navigation d) (wd_response d) true.

(** [dog.dispose()] *)
Definition dispose (dog : nat) : M World () :=
  modify (λ w, mkWorld (now w) (timers w) (timer_count w)
                       (alter dispose_watchdog dog (watchdogs w)) (effects w));;
  log (Disposed dog).

(** [const {navigationId, url} = dog.navigation()] *)
Definition navigation (dog : nat) : M World (NavigationId * string) :=
  w ← get;
  deref "navigationId" (watchdogs w !! dog ≫= wd_navigation).

(** [dog.navigationResponse()] *)
Definition navigationResponse (dog : nat) : M World (option Response) :=
  w ← get;
  mret (watchdogs w !! dog ≫= wd_response).

(** The timer [id] fires: it is no longer pending, and its callback resolves
    the timeout promise with the timeout error. *)
Definition fire (id : nat) (deadline : Z) : M World () :=
  advance deadline;;
  modify (λ w, mkWorld (now w) (delete id (timers w)) (timer_count w) (watchdogs w) (effects w)).

(** [await Promise.race([dog.promise(), timeoutPromise])], in either order of
    the two promises. The timeout promise resolves with [timeoutError] when the
    timer [timeoutId] fires, at its deadline; it never resolves when no timer
    was armed. The watchdog's promise resolves at the instant the browser
    chose, unless the watchdog is disposed. The race is won by the watchdog if
    it resolves before the deadline, by the timer otherwise; with no pending
    timer and a watchdog that never resolves the call stays suspended. *)
Definition race (timeoutId : option nat) (timeoutError : Exn) (dog : nat)
  : M World (option Exn) :=
  w ← get;
  let deadline := timeoutId ≫= λ id, (λ t, (id, t)) <$> timers w !! id in
  let resolves :=
    watchdogs w !! dog ≫= λ d, if wd_disposed d then None else wd_resolves d in
  match deadline, resolves with
  | Some (id, t), Some (instant, value) =>
      if bool_decide (instant < t)
      then advance instant;; mret value
      else fire id t;; mret (Some timeoutError)
  | Some (id, t), None => fire id t;; mret (Some timeoutError)
  | None, Some (instant, value) => advance instant;; mret value
  | None, None => λ w, (Suspended, w)
  end.

(** [await this._session.send('Page.navigate', {frameId, referer, url})] *)
Definition send_navigate (env : Env) (frameId : string) (referer : option string)
    (url : string) : M World NavigationId :=
  log (Sent "Page.navigate" frameId referer url);;
  match navigate_reply env with
  | None => λ w, (Suspended, w)
  | Some (instant, reply) => advance instant;; of_sum reply
  end.

(** ** The navigation-wait protocol *)

Record Options := mkOptions {
  opt_timeout : option Timeout;
  opt_waitUntil : option WaitUntil;
  opt_referer : option string;
}.

Definition timeout_message (timeout : Timeout) : string :=
  "Navigation timeout of " +:+ Number_toString timeout +:+ " ms exceeded".

(** [timeout ? setTimeout(timeoutCallback, timeout) : null] *)
Definition arm (timeout : Timeout) : M World (option nat) :=
  if truthy timeout then id ← setTimeout (to_delay timeout); mret (Some id) else mret None.

Definition waitForFrameNavigation (env : Env) (this : FrameManager) (frame : FrameRef)
    (options : Options) : M World (option Response) :=
  let timeout := default (Millis (navigationTimeout this)) (opt_timeout options) in
  let waitUntil := default (Tokens ["load"]) (opt_waitUntil options) in
  normalizedWaitUntil ← of_sum (normalizeWaitUntil waitUntil);
  let timeoutError := mkExn TimeoutError (timeout_message timeout) in
  timeoutId ← arm timeout;
  nextNavigationDog ← new_NextNavigationWatchdog env frame;
  error1 ← race timeoutId timeoutError nextNavigationDog;
  dispose nextNavigationDog;;
  match error1 with
  | Some e => clearTimeout timeoutId;; throw e
  | None =>
      '(navigationId, url) ← navigation nextNavigationDog;
      if falsy_id navigationId then
        clearTimeout timeoutId;;
        mret None
      else
        watchDog ← new_NavigationWatchdog env frame navigationId url normalizedWaitUntil;
        error ← race timeoutId timeoutError watchDog;
        dispose watchDog;;
        clearTimeout timeoutId;;
        match error with
        | Some e => throw e
        | None => navigationResponse watchDog
        end
  end.

Definition navigateFrame (env : Env) (this : FrameManager) (frame : FrameRef)
    (url : string) (options : Options) : M World (option Response) :=
  let timeout := default (Millis (navigationTimeout this)) (opt_timeout options) in
  let waitUntil := default (Tokens ["load"]) (opt_waitUntil options) in
  let referer := opt_referer options in
  normalizedWaitUntil ← of_sum (normalizeWaitUntil waitUntil);
  data ← deref "frameId" (frame_data <$> objects this !! frame);
  navigationId ← send_navigate env (frameId data) referer url;
  if falsy_id navigationId then
    mret None
  else
    let timeoutError := mkExn TimeoutError (timeout_message timeout) in
    timeoutId ← arm timeout;
    watchDog ← new_NavigationWatchdog env frame navigationId url normalizedWaitUntil;
    error ← race timeoutId timeoutError watchDog;
    dispose watchDog;;
    clearTimeout timeoutId;;
    match error with
    | Some e => throw e
    | None => navigationResponse watchDog
    end.

(** An empty world and an empty manager, to run the code on. *)
Definition world0 : World := mkWorld 0 ∅ 0 [] [].

Definition manager0 : FrameManager := mkFrameManager 30000 None ∅ ∅ [] [].

(** A manager with a main frame and one child frame, as two frame-attached
    notifications leave it. *)
Definition manager1 : FrameManager :=
  ((_onFrameAttached "main" None;; _onFrameAttached "child" (Some "main")) manager0).2.

(** The conditions a [waitUntil] option lists, a single token counting as a
    list of one. *)
Definition tokens_of (waitUntil : WaitUntil) : list string :=
  match waitUntil with
  | Token condition => [condition]
  | Tokens conditions => conditions
  end.

Definition known_condition (condition : string) : Prop :=
  condition = "load" ∨ condition = "domcontentloaded".

(** The [waitUntil] a call works with: the option, or [['load']]. *)
Definition waitUntil_of (options : Options) : WaitUntil :=
  default (Tokens ["load"]) (opt_waitUntil options).

(** The [timeout] a call works with: the option, or the manager's navigation
    timeout. *)
Definition timeout_of (this : FrameManager) (options : Options) : Timeout :=
  default (Millis (navigationTimeout this)) (opt_timeout options).

(** The resources a call acquired between the worlds [w] and [w'] are all
    released in [w']: every timer it armed has been cleared and is not pending,
    every watchdog it created has been disposed. *)
Definition released (w w' : World) : Prop :=
  ∃ new, effects w' = effects w ++ new
    ∧ (∀ id delay, SetTimeout id delay ∈ new →
         ClearTimeout (Some id) ∈ new ∧ timers w' !! id = None)
    ∧ (∀ dog, Created dog ∈ new →
         Disposed dog ∈ new ∧ wd_disposed <$> watchdogs w' !! dog = Some true).

Definition discharged (w' : World) (new : list Effect) (e : Effect) : Prop :=
  match e with
  | SetTimeout id _ => ClearTimeout (Some id) ∈ new ∧ timers w' !! id = None
  | Created dog => Disposed dog ∈ new ∧ wd_disposed <$> watchdogs w' !! dog = Some true
  | _ => True
  end.

(** The tracked navigation resolves before the deadline. *)
Definition navigation_settles_before (env : Env) (deadline : Z) : bool :=
  match navigation_outcome env with
  | Some (instant, _) => bool_decide (instant < deadline)
  | None => false
  end.

(** A wait for the next navigation is resolved before the deadline: the next
    navigation is discovered before it and either is a same-document navigation
    or is tracked to its outcome before the deadline too. *)
Definition wait_settles_before (env : Env) (deadline : Z) : bool :=
  match next_navigation env with
  | Some (instant, (navigationId, _)) =>
      bool_decide (instant < deadline)
      && (falsy_id navigationId || navigation_settles_before env deadline)
  | None => false
  end.

(** A browser in which the frame navigates to a new document: the navigate
    command is answered at 10 ms, the navigation starts at 100 ms and has
    loaded at 200 ms. *)
Definition env_navigation : Env :=
  mkEnv (Some (10, inr (Some "n1"))) (Some (100, (Some "n1", "http://a/")))
        (Some (200, None)) (Some "response of n1").

(** The same browser, but the navigation has loaded at 700 ms only. *)
Definition env_slow : Env :=
  mkEnv (Some (10, inr (Some "n1"))) (Some (100, (Some "n1", "http://a/")))
        (Some (700, None)) (Some "response of n1").

(** A browser that answers the navigate command at 600 ms only, the navigation
    having loaded at 700 ms; and one that never answers it. *)
Definition env_late_reply : Env :=
  mkEnv (Some (600, inr (Some "n1"))) (Some (100, (Some "n1", "http://a/")))
        (Some (700, None)) (Some "response of n1").

Definition env_unanswered : Env :=
  mkEnv None (Some (100, (Some "n1", "http://a/"))) (Some (700, None))
        (Some "response of n1").

(** The same browser as [env_navigation], but the navigation fails with an
    error value at 200 ms. *)
Definition env_failed : Env :=
  mkEnv (Some (10, inr (Some "n1"))) (Some (100, (Some "n1", "http://a/")))
        (Some (200, Some (mkExn Error "Navigation failed")))
        None.

(** A browser that reports a navigation within the document at once. *)
Definition env_at_once : Env :=
  mkEnv None (Some (0, (None, "http://a/#top"))) None None.

(** [s.startsWith(prefix)] and [s.includes(text)] *)
Fixpoint starts_with (prefix s : string) : bool :=
  match prefix, s with
  | EmptyString, _ => true
  | String a prefix, String b s => bool_decide (a = b) && starts_with prefix s
  | String _ _, EmptyString => false
  end.

Fixpoint includes (s text : string) : bool :=
  starts_with text s
  || match s with
     | EmptyString => false
     | String _ rest => includes rest text
     end.

(** A [NavigationWatchdog] constructed with the given list of conditions. *)
Definition tracks_with (conds : list string) (d : Watchdog) : Prop :=
  ∃ navigationId url, wd_target d = Some (navigationId, url, conds).

(** A browser in which the frame navigates within its document at 100 ms, and
    which answers the navigate command with no navigation identifier. *)
Definition env_same_document : Env :=
  mkEnv (Some (10, inr None)) (Some (100, (None, "http://a/#top"))) None None.

(** ** The rest of the manager: dispatch, contexts, frame listing *)

(** [auxData] of an execution-context-created notification. *)
Record AuxData := mkAuxData { aux_frameId : option string }.

(** Modelled from the spec: [_contextCreated(role, context)] of [frames.Frame]
    binds the context into the frame under the role, in place of the context
    the role designated before. *)
Definition _contextCreated (role contextId : string) (f : Frame) : Frame :=
  mkFrame (parentFrame f) (childFrames f) (frame_url f) (frame_name f) (detached f)
          ((role, contextId) :: filter (λ rc, rc.1 ≠ role) (frame_contexts f))
          (frame_data f).

(** [executionContextById(executionContextId)] *)
Definition executionContextById (this : FrameManager) (executionContextId : string)
  : option ExecutionContext :=
  _contextIdToContext this !! executionContextId.

Definition _onExecutionContextCreated (executionContextId : string)
    (auxData : option AuxData) : M FrameManager () :=
  this ← get;
  let frameId := auxData ≫= aux_frameId in
  let frame := frameId ≫= (_frames this !!.) in
  let context := mkContext frame in
  match frame with
  | Some _ =>
      call_on "_contextCreated" frame (_contextCreated "main" executionContextId);;
      call_on "_contextCreated" frame (_contextCreated "utility" executionContextId);;
      mret ()
  | None => mret ()
  end;;
  modify (λ m, set_contexts (<[executionContextId := context]> (_contextIdToContext m)) m).

(** [frame(frameId)] and [mainFrame()] *)
Definition frame_of (this : FrameManager) (frameId : string) : option FrameRef :=
  _frames this !! frameId.

Definition mainFrame (this : FrameManager) : option FrameRef := _mainFrame this.

(** [for (const subframe of subframes) body(subframe)], the body threading
    the list [frames] it pushes to; [None] is a body that has not ended. *)
Fixpoint for_each (body : FrameRef → list FrameRef → option (list FrameRef))
    (subframes : list FrameRef) (frames : list FrameRef) : option (list FrameRef) :=
  match subframes with
  | [] => Some frames
  | subframe :: rest =>
      match body subframe frames with
      | Some frames => for_each body rest frames
      | None => None
      end
  end.

(** Modelled from the spec: [childFrames()] of [frames.Frame] yields the child
    collection, in the order of attachment. *)
Definition childFrames_of (store : list Frame) (frame : FrameRef) : list FrameRef :=
  default [] (childFrames <$> store !! frame).

(** The closure [collect] of [frames()]: the frame is pushed, then each of its
    child frames is collected in turn. The recursion follows the child
    collections of the store; [fuel] bounds its depth, [None] is a recursion
    that has not ended within it. *)
Fixpoint collect (fuel : nat) (store : list Frame) (frame : FrameRef)
    (frames : list FrameRef) : option (list FrameRef) :=
  match fuel with
  | O => None
  | S fuel =>
      for_each (collect fuel store) (childFrames_of store frame) (frames ++ [frame])
  end.

(** [frames()]: [collect(this._mainFrame)] pushes [null] and then throws on
    [null.childFrames()] when there is no main frame. *)
Definition frames (fuel : nat) (this : FrameManager) : option (Exn + list FrameRef) :=
  match _mainFrame this with
  | None => Some (inl (undefined_deref "childFrames"))
  | Some r => inr <$> collect fuel (objects this) r []
  end.

(** The notifications the constructor subscribes the frame tree and the
    context registry to, each with its payload. *)
Inductive Notification :=
  | Page_eventFired (frameId name : string)
  | Page_frameAttached (frameId : string) (parentFrameId : option string)
  | Page_frameDetached (frameId : string)
  | Page_navigationCommitted (frameId url name : string) (navigationId : NavigationId)
  | Page_sameDocumentNavigation (frameId url : string)
  | Runtime_executionContextCreated (executionContextId : string) (auxData : option AuxData)
  | Runtime_executionContextDestroyed (executionContextId : string).

(** The listener the constructor binds to each notification. *)
Definition listener (n : Notification) : M FrameManager () :=
  match n with
  | Page_eventFired frameId name => _onEventFired frameId name
  | Page_frameAttached frameId parentFrameId => _onFrameAttached frameId parentFrameId
  | Page_frameDetached frameId => _onFrameDetached frameId
  | Page_navigationCommitted frameId url name navigationId =>
      _onNavigationCommitted frameId url name navigationId
  | Page_sameDocumentNavigation frameId url => _onSameDocumentNavigation frameId url
  | Runtime_executionContextCreated executionContextId auxData =>
      _onExecutionContextCreated executionContextId auxData
  | Runtime_executionContextDestroyed executionContextId =>
      _onExecutionContextDestroyed executionContextId
  end.

(** The manager a notification leaves behind, whether its listener returned
    or threw, and the manager a sequence of notifications leaves behind. *)
Definition deliver (m : FrameManager) (n : Notification) : FrameManager :=
  (listener n m).2.

Definition deliver_all (ns : list Notification) (m : FrameManager) : FrameManager :=
  foldl deliver m ns.

(** In a store, children are allocated after their parent. *)
Definition tree_ordered (store : list Frame) : Prop :=
  ∀ i o, store !! i = Some o →
         Forall (λ c, (i < c < length store)%nat) (childFrames o).

(** What the handlers keep true of the manager: the frame map, the main-frame
    pointer and the owners of the contexts designate frame objects of the
    store, a frame is registered under the identifier its own data carries,
    and children come after their parent in the store. *)
Definition consistent_parts (main : option FrameRef) (frames : gmap string FrameRef)
    (contexts : gmap string ExecutionContext) (store : list Frame) : Prop :=
  (∀ id r, frames !! id = Some r → (r < length store)%nat)
  ∧ (∀ id r o, frames !! id = Some r → store !! r = Some o → frameId (frame_data o) = id)
  ∧ (∀ r, main = Some r → (r < length store)%nat)
  ∧ (∀ cid c r, contexts !! cid = Some c → context_frame c = Some r →
                (r < length store)%nat)
  ∧ tree_ordered store.

Definition consistent (m : FrameManager) : Prop :=
  consistent_parts (_mainFrame m) (_frames m) (_contextIdToContext m) (objects m).

(** A mutation of a frame object that keeps its child collection and the
    identifier in its data. *)
Definition keeps_shape (f : Frame → Frame) : Prop :=
  ∀ o, childFrames (f o) = childFrames o
       ∧ frameId (frame_data (f o)) = frameId (frame_data o).

(** A world in which the identifiers of the pending timers have all been
    issued already. *)
Definition timers_issued (w : World) : Prop :=
  ∀ id deadline, timers w !! id = Some deadline → (id < timer_count w)%nat.

(** A manager with a main frame, two children and a grandchild under the
    first child. *)
Definition manager2 : FrameManager :=
  deliver_all
    [Page_frameAttached "main" None; Page_frameAttached "a" (Some "main");
     Page_frameAttached "b" (Some "main"); Page_frameAttached "c" (Some "a")]
    manager0.

(** The manager [manager1] after a context of the child frame was created. *)
Definition manager3 : FrameManager :=
  deliver manager1 (Runtime_executionContextCreated "ctx" (Some (mkAuxData (Some "child")))).

(** A world in which another wait is pending: its timer and its watchdog. *)
Definition world1 : World :=
  mkWorld 5 {[0%nat := 1000]} 1 [mkWatchdog 1%nat None None None None false]
          [SetTimeout 0 995; Created 0%nat].

(** A browser that rejects the navigate command. *)
Definition env_rejected : Env :=
  mkEnv (Some (10, inl (mkExn Error "Protocol error (Page.navigate)"))) None None None.

Definition is_Sent (e : Effect) : Prop :=
  match e with
  | Sent _ _ _ _ => True
  | _ => False
  end.

(** What a frame object keeps through every mutation: the identifier in its
    data, and its detached mark once set. *)
Definition same_identity (o o' : Frame) : Prop :=
  frameId (frame_data o') = frameId (frame_data o)
  ∧ (detached o = true → detached o' = true).

(** The store [store'] holds every frame object of [store], with the same
    identity. *)
Definition evolves (store store' : list Frame) : Prop :=
  ∀ r o, store !! r = Some o → ∃ o', store' !! r = Some o' ∧ same_identity o o'.

Definition keeps_identity (f : Frame → Frame) : Prop := ∀ o, same_identity o (f o).

Definition context_notification (n : Notification) : Prop :=
  match n with
  | Runtime_executionContextCreated _ _ | Runtime_executionContextDestroyed _ => True
  | _ => False
  end.

(** ** Forwarding to the page *)

(** Modelled from the spec: the calls the manager makes on its page
    ([_addConsoleMessage], [_onBindingCalled] of ./Page) are recorded as
    values; a handle made by [context._createHandle(arg)] is the argument
    with the context that owns it. *)
Inductive PageCall :=
  | addConsoleMessage (type : string) (handles : list (ExecutionContext * string))
      (location : string)
  | onBindingCalled (payload : string) (context : option ExecutionContext).

(** [args.map(arg => context._createHandle(arg))]: the callback runs once for
    each argument, and dereferences the context each time. *)
Fixpoint createHandles {S} (context : option ExecutionContext) (args : list string)
  : M S (list (ExecutionContext * string)) :=
  match args with
  | [] => mret []
  | arg :: rest =>
      c ← deref "_createHandle" context;
      handles ← createHandles context rest;
      mret ((c, arg) :: handles)
  end.

(** [_onConsole({type, args, executionContextId, location})], yielding the
    call it makes on the page. *)
Definition _onConsole (type : string) (args : list string)
    (executionContextId location : string) : M FrameManager PageCall :=
  this ← get;
  let context := executionContextById this executionContextId in
  handles ← createHandles context args;
  mret (addConsoleMessage type handles location).

(** [_onBindingCalled(event)], yielding the call it makes on the page. *)
Definition _onBindingCalled (executionContextId payload : string)
  : M FrameManager PageCall :=
  this ← get;
  let context := executionContextById this executionContextId in
  mret (onBindingCalled payload context).

(** * Properties *)

(** ** normalizeWaitUntil *)

Lemma check_conditions_known (l : list string) :
  Forall known_condition l → check_conditions l = None.
Proof.
  induction 1 as [|c l Hc _ IH]; [done|].
  cbn. destruct Hc as [-> | ->]; cbn; exact IH.
Qed.

Lemma check_conditions_unknown (l : list string) :
  ¬ Forall known_condition l →
  ∃ c, c ∈ l ∧ ¬ known_condition c
       ∧ check_conditions l = Some (mkExn Error ("Unknown waitUntil condition: " +:+ c)).
Proof.
  induction l as [|c l IH]; intros Hl.
  - destruct Hl. constructor.
  - cbn. destruct (decide (c = "load")) as [->|H1].
    { destruct IH as (c' & Hin & Hc' & Heq).
      - intros Hf. apply Hl. constructor; [by left | done].
      - exists c'. split; [by right | done]. }
    destruct (decide (c = "domcontentloaded")) as [->|H2].
    { destruct IH as (c' & Hin & Hc' & Heq).
      - intros Hf. apply Hl. constructor; [by right | done].
      - exists c'. split; [by right | done]. }
    rewrite !bool_decide_eq_true_2 by done. cbn.
    exists c. split; [by left|]. split; [|done].
    intros [? | ?]; done.
Qed.

Lemma normalizeWaitUntil_known (waitUntil : WaitUntil) :
  Forall known_condition (tokens_of waitUntil) →
  normalizeWaitUntil waitUntil = inr (tokens_of waitUntil).
Proof.
  intros H. unfold normalizeWaitUntil.
  change (match waitUntil with Token c => [c] | Tokens l => l end) with (tokens_of waitUntil).
  by rewrite check_conditions_known.
Qed.

Lemma normalizeWaitUntil_unknown (waitUntil : WaitUntil) :
  ¬ Forall known_condition (tokens_of waitUntil) →
  ∃ c, c ∈ tokens_of waitUntil ∧ ¬ known_condition c
       ∧ normalizeWaitUntil waitUntil
         = inl (mkExn Error ("Unknown waitUntil condition: " +:+ c)).
Proof.
  intros H. destruct (check_conditions_unknown _ H) as (c & Hin & Hc & Heq).
  exists c. split; [done|]. split; [done|].
  unfold normalizeWaitUntil.
  change (match waitUntil with Token c => [c] | Tokens l => l end) with (tokens_of waitUntil).
  by rewrite Heq.
Qed.

(** A call whose [waitUntil] does not validate throws the validation error and
    leaves the world as it found it. *)
Lemma waitForFrameNavigation_invalid env this frame options w e :
  normalizeWaitUntil (waitUntil_of options) = inl e →
  waitForFrameNavigation env this frame options w = (Threw e, w).
Proof.
  intros H. unfold waitForFrameNavigation, waitUntil_of in *.
  unfold mbind, M_bind. by rewrite H.
Qed.

Lemma navigateFrame_invalid env this frame url options w e :
  normalizeWaitUntil (waitUntil_of options) = inl e →
  navigateFrame env this frame url options w = (Threw e, w).
Proof.
  intros H. unfold navigateFrame, waitUntil_of in *.
  unfold mbind, M_bind. by rewrite H.
Qed.

(** C5. [normalizeWaitUntil] wraps a single known token into a list of one,
    returns a list of known tokens as it is, and throws a validation error
    naming an offending token as soon as one token is neither ['load'] nor
    ['domcontentloaded']; in [waitForFrameNavigation] and in [navigateFrame]
    the error is thrown with the world untouched: no command was sent, no timer
    armed, no watchdog created. *)
Theorem normalizeWaitUntil_spec :
  (∀ c, known_condition c → normalizeWaitUntil (Token c) = inr [c])
  ∧ (∀ l, Forall known_condition l → normalizeWaitUntil (Tokens l) = inr l)
  ∧ (∀ waitUntil, ¬ Forall known_condition (tokens_of waitUntil) →
       ∃ c, c ∈ tokens_of waitUntil ∧ ¬ known_condition c
            ∧ normalizeWaitUntil waitUntil
              = inl (mkExn Error ("Unknown waitUntil condition: " +:+ c)))
  ∧ (∀ env this frame url options w e,
       normalizeWaitUntil (waitUntil_of options) = inl e →
       waitForFrameNavigation env this frame options w = (Threw e, w)
       ∧ navigateFrame env this frame url options w = (Threw e, w)).
Proof.
  split; [|split; [|split]].
  - intros c Hc. apply (normalizeWaitUntil_known (Token c)). by constructor.
  - intros l Hl. by apply (normalizeWaitUntil_known (Tokens l)).
  - apply normalizeWaitUntil_unknown.
  - intros. split.
    + by apply waitForFrameNavigation_invalid.
    + by apply navigateFrame_invalid.
Qed.

Lemma normalizeWaitUntil_spec_witness :
  normalizeWaitUntil (Token "load") = inr ["load"]
  ∧ normalizeWaitUntil (Tokens ["load"; "domcontentloaded"]) = inr ["load"; "domcontentloaded"]
  ∧ (∃ c, c ∈ tokens_of (Token "networkidle") ∧ ¬ known_condition c
          ∧ normalizeWaitUntil (Token "networkidle")
            = inl (mkExn Error ("Unknown waitUntil condition: " +:+ c)))
  ∧ (waitForFrameNavigation (mkEnv None None None None) manager0 0%nat
       (mkOptions None (Some (Token "networkidle")) None) world0
     = (Threw (mkExn Error "Unknown waitUntil condition: networkidle"), world0)
     ∧ navigateFrame (mkEnv None None None None) manager0 0%nat "http://a"
         (mkOptions None (Some (Token "networkidle")) None) world0
       = (Threw (mkExn Error "Unknown waitUntil condition: networkidle"), world0)).
Proof.
  destruct normalizeWaitUntil_spec as (H1 & H2 & H3 & H4).
  split; [|split; [|split]].
  - apply H1. by left.
  - apply H2. apply Forall_cons_2; [by left|]. apply Forall_cons_2; [by right|]. apply Forall_nil_2.
  - apply H3. intros H. apply Forall_inv in H as [Hc|Hc]; discriminate Hc.
  - apply H4. reflexivity.
Defined.

(** ** JavaScript values *)

Example toLowerCase_DOMContentLoaded : toLowerCase "DOMContentLoaded" = "domcontentloaded".
Proof. reflexivity. Qed.

Example timeout_message_500 :
  timeout_message (Millis 500) = "Navigation timeout of 500 ms exceeded".
Proof. reflexivity. Qed.

Lemma starts_with_append (text after : string) : starts_with text (text +:+ after) = true.
Proof.
  induction text as [|a text IH]; [done|]. simpl.
  rewrite bool_decide_eq_true_2 by done. by rewrite IH.
Qed.

Lemma contains_includes (s text : string) : contains s text → includes s text = true.
Proof.
  intros (before & after & ->). induction before as [|a before IH].
  - simpl. destruct (text +:+ after) eqn:E; simpl; rewrite <- E;
      by rewrite starts_with_append.
  - simpl. rewrite IH. apply orb_true_r.
Qed.

Lemma timeout_message_contains (timeout : Timeout) :
  contains (timeout_message timeout) (Number_toString timeout).
Proof. by exists "Navigation timeout of ", " ms exceeded". Qed.

(** ** The notification handlers *)

Ltac run_handler :=
  unfold _onNavigationCommitted, _onSameDocumentNavigation, _onFrameAttached,
    _onFrameDetached, _onEventFired, _onExecutionContextDestroyed,
    on_frameData, call_on, new_Frame, emit, assert, deref, modify, get, throw,
    mbind, M_bind, mret, M_ret, set_objects, set_frames, set_mainFrame, set_contexts;
  cbn.

(** C9. A navigation-committed, same-document-navigation, event-fired or
    frame-detached notification whose frame identifier is not in the frame map
    makes its handler throw the [TypeError] of a dereferenced [undefined], the
    manager being left as it was; an execution-context-destroyed notification
    for an unknown context identifier returns and changes nothing. *)
Theorem unknown_frame_throws (m : FrameManager) (frameId : string) :
  _frames m !! frameId = None →
  (∀ url name navigationId, ∃ e,
      _onNavigationCommitted frameId url name navigationId m = (Threw e, m)
      ∧ exn_class e = TypeError)
  ∧ (∀ url, ∃ e,
      _onSameDocumentNavigation frameId url m = (Threw e, m) ∧ exn_class e = TypeError)
  ∧ (∀ name, ∃ e,
      _onEventFired frameId name m = (Threw e, m) ∧ exn_class e = TypeError)
  ∧ (∃ e, _onFrameDetached frameId m = (Threw e, m) ∧ exn_class e = TypeError)
  ∧ (∀ executionContextId,
      _contextIdToContext m !! executionContextId = None →
      _onExecutionContextDestroyed executionContextId m = (Returned (), m)).
Proof.
  intros Hm. repeat split.
  - intros. eexists. run_handler. rewrite Hm. cbn. split; reflexivity.
  - intros. eexists. run_handler. rewrite Hm. cbn. split; reflexivity.
  - intros. eexists. run_handler. rewrite Hm. cbn. split; reflexivity.
  - eexists. run_handler. rewrite Hm. cbn.
    rewrite delete_id by done. split; [by destruct m | reflexivity].
  - intros c Hc. run_handler. by rewrite Hc.
Qed.

Lemma unknown_frame_throws_witness :
  (∃ e, _onNavigationCommitted "ghost" "http://a/" "" (Some "n1") manager1
        = (Threw e, manager1) ∧ exn_class e = TypeError)
  ∧ (∃ e, _onSameDocumentNavigation "ghost" "http://a/#top" manager1
          = (Threw e, manager1) ∧ exn_class e = TypeError)
  ∧ (∃ e, _onEventFired "ghost" "load" manager1 = (Threw e, manager1)
          ∧ exn_class e = TypeError)
  ∧ (∃ e, _onFrameDetached "ghost" manager1 = (Threw e, manager1)
          ∧ exn_class e = TypeError)
  ∧ _onExecutionContextDestroyed "ghost" manager1 = (Returned (), manager1).
Proof.
  destruct (unknown_frame_throws manager1 "ghost") as (H1 & H2 & H3 & H4 & H5).
  - reflexivity.
  - split; [apply H1|]. split; [apply H2|]. split; [apply H3|]. split; [exact H4|].
    apply H5. reflexivity.
Defined.

(** C4. A frame-attached notification whose parent identifier resolves to no
    known frame makes the new frame the main frame when there is none; when
    there is one already, the handler throws the fatal
    [INTERNAL ERROR: re-attaching main frame!], and neither the main frame nor
    the frame map nor the emitted events have changed. *)
Theorem frameAttached_main (m : FrameManager) (frameId : string)
    (parentFrameId : option string) :
  parentFrameId ≫= (_frames m !!.) = None →
  let r := length (objects m) in
  (_mainFrame m = None →
     _onFrameAttached frameId parentFrameId m
     = (Returned (),
        mkFrameManager (navigationTimeout m) (Some r) (<[frameId := r]> (_frames m))
          (_contextIdToContext m)
          (objects m ++ [Frame.new None (mkFrameData frameId (Some "") ∅)])
          (emitted m ++ [FrameAttached r])))
  ∧ (_mainFrame m ≠ None →
     ∃ m', _onFrameAttached frameId parentFrameId m
           = (Threw (mkExn Error "INTERNAL ERROR: re-attaching main frame!"), m')
           ∧ _mainFrame m' = _mainFrame m
           ∧ _frames m' = _frames m
           ∧ emitted m' = emitted m).
Proof.
  intros Hp r. unfold mbind in Hp. split.
  - intros Hmain. run_handler. rewrite Hp. cbn. rewrite Hmain. reflexivity.
  - intros Hmain. eexists. run_handler. rewrite Hp. cbn.
    rewrite bool_decide_eq_false_2 by done. cbn. repeat split; reflexivity.
Qed.

Lemma frameAttached_main_witness :
  (_onFrameAttached "main" None manager0
   = (Returned (),
      mkFrameManager 30000 (Some 0%nat) {["main" := 0%nat]} ∅
        [Frame.new None (mkFrameData "main" (Some "") ∅)] [FrameAttached 0%nat]))
  ∧ (∃ m', (_onFrameAttached "main" None;; _onFrameAttached "other" (Some "nowhere")) manager0
           = (Threw (mkExn Error "INTERNAL ERROR: re-attaching main frame!"), m')
           ∧ _mainFrame m' = Some 0%nat
           ∧ _frames m' = {["main" := 0%nat]}
           ∧ emitted m' = [FrameAttached 0%nat]).
Proof.
  split.
  - apply (frameAttached_main manager0 "main" None); reflexivity.
  - destruct (frameAttached_main
                (mkFrameManager 30000 (Some 0%nat) {["main" := 0%nat]} ∅
                   [Frame.new None (mkFrameData "main" (Some "") ∅)] [FrameAttached 0%nat])
                "other" (Some "nowhere")) as [_ H]; [reflexivity|].
    destruct H as (m' & H1 & H2 & H3 & H4); [discriminate|].
    exists m'. repeat split; [|exact H2|exact H3|exact H4].
    exact H1.
Defined.

(** C7. An event-fired notification for a known frame adds the lowercased name
    to the fired events of that frame object, and the events it emits are:
    one [Load] exactly when the frame is the main frame and the name as
    received is ['load'], one [DOMContentLoaded] exactly when the frame is the
    main frame and the name is ['DOMContentLoaded'], none otherwise, so none
    for a frame that is not the main frame. *)
Theorem eventFired_spec (m : FrameManager) (frameId name : string) (r : FrameRef) :
  _frames m !! frameId = Some r →
  ∃ new,
    _onEventFired frameId name m
    = (Returned (),
       mkFrameManager (navigationTimeout m) (_mainFrame m) (_frames m)
         (_contextIdToContext m)
         (alter (λ o, Frame.set_data (add_fired (toLowerCase name) (frame_data o)) o)
                r (objects m))
         (emitted m ++ new))
    ∧ (new = [Load] ↔ _mainFrame m = Some r ∧ name = "load")
    ∧ (new = [DOMContentLoaded] ↔ _mainFrame m = Some r ∧ name = "DOMContentLoaded")
    ∧ (new = [] ↔ ¬ (_mainFrame m = Some r ∧ (name = "load" ∨ name = "DOMContentLoaded")))
    ∧ (∀ o, objects m !! r = Some o →
         ∃ o', alter (λ o, Frame.set_data (add_fired (toLowerCase name) (frame_data o)) o)
                     r (objects m) !! r = Some o'
               ∧ firedEvents (frame_data o')
                 = {[toLowerCase name]} ∪ firedEvents (frame_data o)).
Proof.
  intros Hr.
  exists (if bool_decide (Some r = _mainFrame m)
          then if bool_decide (name = "load") then [Load]
               else if bool_decide (name = "DOMContentLoaded") then [DOMContentLoaded]
               else []
          else []).
  split; [|split; [|split; [|split]]].
  - run_handler. rewrite Hr. cbn.
    repeat case_bool_decide; cbn; rewrite ?app_nil_r; reflexivity.
  - repeat case_bool_decide; subst; split; try done; intros [? ?]; congruence.
  - repeat case_bool_decide; subst; split; try done; intros [? ?]; congruence.
  - repeat case_bool_decide; subst; split; try done; try tauto.
    + intros H'. destruct H'. split; [done | by left].
    + intros H'. destruct H'. split; [done | by right].
    + intros _ [? _]. congruence.
  - intros o Ho. rewrite list_lookup_alter_eq, Ho. cbn. eexists. split; [reflexivity|].
    by destruct o as [? ? ? ? ? ? []].
Qed.

Lemma eventFired_spec_witness :
  _frames manager1 !! "main" = Some 0%nat
  ∧ (∃ m', _onEventFired "main" "load" manager1 = (Returned (), m')
           ∧ emitted m' = emitted manager1 ++ [Load])
  ∧ (∃ m' o', _onEventFired "main" "DOMContentLoaded" manager1 = (Returned (), m')
              ∧ emitted m' = emitted manager1 ++ [DOMContentLoaded]
              ∧ objects m' !! 0%nat = Some o'
              ∧ firedEvents (frame_data o') = {["domcontentloaded"]} ∪ ∅)
  ∧ (∃ m', _onEventFired "child" "load" manager1 = (Returned (), m')
           ∧ emitted m' = emitted manager1).
Proof.
  split; [reflexivity|]. split; [|split].
  - destruct (eventFired_spec manager1 "main" "load" 0%nat) as (new & H & HL & _);
      [reflexivity|].
    eexists. split; [exact H|]. cbn [emitted]. f_equal. apply HL. split; reflexivity.
  - destruct (eventFired_spec manager1 "main" "DOMContentLoaded" 0%nat)
      as (new & H & _ & HD & _ & Hfired); [reflexivity|].
    destruct (Hfired (mkFrame None [1%nat] "" "" false [] (mkFrameData "main" (Some "") ∅)))
      as (o' & Ho' & Hset); [reflexivity|].
    eexists _, o'. split; [exact H|]. cbn [emitted objects].
    split; [f_equal; apply HD; split; reflexivity|]. split; [exact Ho' | exact Hset].
  - destruct (eventFired_spec manager1 "child" "load" 1%nat) as (new & H & _ & _ & HN & _);
      [reflexivity|].
    eexists. split; [exact H|]. cbn [emitted].
    rewrite (proj2 HN); [apply app_nil_r|]. intros [Hmain _]. discriminate Hmain.
Defined.

(** C8. A frame-detached notification for a known frame deletes that
    identifier from the frame map, marks the frame object detached and emits
    [FrameDetached]; every other entry of the frame map is as before, also the
    entries of the frames whose parent is the detached frame, and no other
    frame object is touched. *)
Theorem frameDetached_spec (m : FrameManager) (frameId : string) (r : FrameRef) :
  _frames m !! frameId = Some r →
  ∃ m',
    _onFrameDetached frameId m = (Returned (), m')
    ∧ _frames m' = delete frameId (_frames m)
    ∧ _frames m' !! frameId = None
    ∧ (∀ id, id ≠ frameId → _frames m' !! id = _frames m !! id)
    ∧ (∀ o, objects m !! r = Some o →
         objects m' !! r = Some (Frame._detach o) ∧ detached (Frame._detach o) = true)
    ∧ (∀ r', r' ≠ r → objects m' !! r' = objects m !! r')
    ∧ (∀ id r' o', id ≠ frameId → _frames m !! id = Some r' →
         objects m !! r' = Some o' → parentFrame o' = Some r → r' ≠ r →
         _frames m' !! id = Some r' ∧ objects m' !! r' = Some o')
    ∧ emitted m' = emitted m ++ [FrameDetached r]
    ∧ _mainFrame m' = _mainFrame m
    ∧ _contextIdToContext m' = _contextIdToContext m.
Proof.
  intros Hr. eexists. split.
  { run_handler. rewrite Hr. cbn. reflexivity. }
  cbn. split; [reflexivity|]. split; [apply lookup_delete_eq|].
  split; [intros id Hid; by apply lookup_delete_ne|].
  split; [intros o Ho; by rewrite list_lookup_alter_eq, Ho|].
  split; [intros r' Hr'; by apply list_lookup_alter_ne|].
  split; [|done].
  intros id r' o' Hid Hid' Ho' _ Hr'.
  rewrite lookup_delete_ne by done. by rewrite list_lookup_alter_ne.
Qed.

Lemma frameDetached_spec_witness :
  _frames manager1 !! "main" = Some 0%nat
  ∧ ∃ m', _onFrameDetached "main" manager1 = (Returned (), m')
          ∧ _frames m' !! "main" = None
          ∧ _frames m' !! "child" = Some 1%nat
          ∧ (detached <$> objects m' !! 0%nat) = Some true
          ∧ (parentFrame <$> objects m' !! 1%nat) = Some (Some 0%nat)
          ∧ emitted m' = emitted manager1 ++ [FrameDetached 0%nat].
Proof.
  split; [reflexivity|].
  destruct (frameDetached_spec manager1 "main" 0%nat)
    as (m' & H & _ & Hgone & Hother & Hobj & _ & Hchild & Hemit & _); [reflexivity|].
  exists m'. split; [exact H|]. split; [exact Hgone|].
  destruct (Hchild "child" 1%nat
              (mkFrame (Some 0%nat) [] "" "" false [] (mkFrameData "child" (Some "") ∅)))
    as [Hc1 Hc2]; [discriminate | reflexivity | reflexivity | reflexivity | discriminate |].
  split; [exact Hc1|].
  destruct (Hobj (mkFrame None [1%nat] "" "" false [] (mkFrameData "main" (Some "") ∅)))
    as [Ho _]; [reflexivity|].
  split; [by rewrite Ho|]. split; [by rewrite Hc2|]. exact Hemit.
Defined.

(** ** The navigation-wait protocol *)

Ltac run_world :=
  unfold waitForFrameNavigation, navigateFrame, arm, send_navigate, race, fire,
    navigation, navigationResponse, dispose, new_NavigationWatchdog,
    new_NextNavigationWatchdog, new_watchdog, clearTimeout, setTimeout, advance, log,
    of_sum, deref, modify, get, throw, mbind, M_bind, mret, M_ret.

Lemma alter_last {A} (f : A → A) (l : list A) (x : A) :
  alter f (length l) (l ++ [x]) = l ++ [f x].
Proof. rewrite <- (Nat.add_0_r (length l)). by rewrite alter_app_r. Qed.

Lemma lookup_last {A} (l : list A) (x : A) : (l ++ [x]) !! length l = Some x.
Proof. by apply list_lookup_middle. Qed.

Lemma lookup_last_but_one {A} (l : list A) (x y : A) :
  ((l ++ [x]) ++ [y]) !! length l = Some x.
Proof. rewrite lookup_app_l; [apply lookup_last|]. rewrite length_app. cbn. lia. Qed.

Lemma lookup_after_last {A} (l : list A) (x y : A) :
  ((l ++ [x]) ++ [y]) !! S (length l) = Some y.
Proof.
  replace (S (length l)) with (length (l ++ [x])); [apply lookup_last|].
  rewrite length_app. cbn. lia.
Qed.

(** Runs a call along every path: the choices of the browser and the tests of
    the code are split, the lookups of the timer and of the watchdog just
    created are resolved. *)
Ltac explore :=
  repeat first
    [ rewrite lookup_insert_eq
    | rewrite list_lookup_middle by reflexivity
    | rewrite alter_last
    | progress cbn
    | match goal with
      | |- context [normalizeWaitUntil ?x] => destruct (normalizeWaitUntil x) eqn:?
      | |- context [truthy ?x] => destruct (truthy x) eqn:?
      | |- context [objects ?m !! ?f] => destruct (objects m !! f) eqn:?
      | |- context [falsy_id ?x] => destruct (falsy_id x) eqn:?
      | |- context [bool_decide ?P] => destruct (bool_decide_reflect P)
      | |- context [_ <$> ?x] => is_var x; destruct x
      | |- context [fst ?x] => is_var x; destruct x
      | |- context [snd ?x] => is_var x; destruct x
      | |- context [match ?x with _ => _ end] => is_var x; destruct x
      end ].

Lemma released_intro (w w' : World) (new : list Effect) :
  effects w' = effects w ++ new → Forall (discharged w' new) new → released w w'.
Proof.
  intros He Hall. exists new. split; [done|].
  rewrite Forall_forall in Hall. split.
  - intros id delay Hin. apply (Hall _ Hin).
  - intros dog Hin. apply (Hall _ Hin).
Qed.

Ltac released_leaf :=
  eapply released_intro;
  [ cbn [effects]; rewrite <- ?app_assoc; cbn [app];
    first [reflexivity | symmetry; apply app_nil_r]
  | repeat apply Forall_cons_2; try apply Forall_nil_2; cbn [discharged];
    try exact I;
    (split; [set_solver|]); cbn [timers watchdogs];
    rewrite ?lookup_delete_eq, ?lookup_last_but_one, ?lookup_last; reflexivity ].

(** C1. Whenever [waitForFrameNavigation] or [navigateFrame] returns or
    throws, by whichever path, every timer the call armed has been cleared and
    is no longer pending, and every watchdog the call created has been
    disposed. *)
Theorem wait_releases_resources (env : Env) (this : FrameManager) (frame : FrameRef)
    (url : string) (options : Options) (w : World) :
  (∀ out w', waitForFrameNavigation env this frame options w = (out, w') →
             out ≠ Suspended → released w w')
  ∧ (∀ out w', navigateFrame env this frame url options w = (out, w') →
               out ≠ Suspended → released w w').
Proof.
  destruct env as [reply next outcome response]. split.
  - intros out w'. run_world. explore.
    all: intros [= <- <-] Hout; try done.
    all: released_leaf.
  - intros out w'. run_world. explore.
    all: intros [= <- <-] Hout; try done.
    all: released_leaf.
Qed.

Lemma wait_releases_resources_witness :
  released world0
    (waitForFrameNavigation env_navigation manager0 0%nat
       (mkOptions (Some (Millis 150)) None None) world0).2
  ∧ released world0
      (navigateFrame env_navigation manager1 0%nat "http://a/"
         (mkOptions (Some (Millis 500)) None None) world0).2.
Proof.
  split.
  - eapply (proj1 (wait_releases_resources env_navigation manager0 0%nat ""
                     (mkOptions (Some (Millis 150)) None None) world0)
              (Threw (mkExn TimeoutError "Navigation timeout of 150 ms exceeded"))).
    + vm_compute. reflexivity.
    + discriminate.
  - eapply (proj2 (wait_releases_resources env_navigation manager1 0%nat "http://a/"
                     (mkOptions (Some (Millis 500)) None None) world0)
              (Returned (Some "response of n1"))).
    + vm_compute. reflexivity.
    + discriminate.
Defined.

(** C2. When the next-navigation watchdog wins the race, that is no timer is
    armed or the navigation is discovered before the deadline of the timer, and the
    navigation it discovered has no identifier, [waitForFrameNavigation]
    returns no response: it has disposed the watchdog and then cleared the
    timer, which is not pending any more, and the next-navigation watchdog is
    the only watchdog it created. *)
Theorem same_document_resolves (env : Env) (this : FrameManager) (frame : FrameRef)
    (options : Options) (w : World) (conds : list string)
    (instant : Z) (navigationId : NavigationId) (url : string) :
  normalizeWaitUntil (waitUntil_of options) = inr conds →
  next_navigation env = Some (instant, (navigationId, url)) →
  falsy_id navigationId = true →
  (truthy (timeout_of this options) = false
   ∨ instant < now w + timer_delay (to_delay (timeout_of this options))) →
  let timeout := timeout_of this options in
  let timeoutId := if truthy timeout then Some (timer_count w) else None in
  let dog := length (watchdogs w) in
  ∃ w',
    waitForFrameNavigation env this frame options w = (Returned None, w')
    ∧ effects w'
      = effects w
        ++ (if truthy timeout then [SetTimeout (timer_count w) (to_delay timeout)] else [])
        ++ [Created dog; Disposed dog; ClearTimeout timeoutId]
    ∧ watchdogs w'
      = watchdogs w
        ++ [mkWatchdog frame None (Some (instant, None)) (Some (navigationId, url)) None true]
    ∧ (∀ id, timeoutId = Some id → timers w' !! id = None).
Proof.
  destruct env as [reply next outcome response]. cbn [next_navigation].
  unfold timeout_of, waitUntil_of. intros Hn -> Hid Hwin. revert Hwin.
  run_world. rewrite Hn. explore.
  all: intros [Hwin | Hwin]; try discriminate Hwin; try lia.
  all: eexists; split; [reflexivity|]; cbn [effects watchdogs timers].
  all: rewrite <- ?app_assoc; cbn [app]; repeat split.
  all: try (intros id [= <-]; apply lookup_delete_eq).
  all: intros id Hid'; discriminate Hid'.
Qed.

Lemma same_document_resolves_witness :
  ∃ w',
    waitForFrameNavigation env_same_document manager0 0%nat
      (mkOptions (Some (Millis 500)) None None) world0 = (Returned None, w')
    ∧ effects w' = [SetTimeout 0 500; Created 0%nat; Disposed 0%nat; ClearTimeout (Some 0%nat)]
    ∧ watchdogs w'
      = [mkWatchdog 0%nat None (Some (100, None)) (Some (None, "http://a/#top")) None true]
    ∧ (∀ id, Some 0%nat = Some id → timers w' !! id = None).
Proof.
  apply (same_document_resolves env_same_document manager0 0%nat
           (mkOptions (Some (Millis 500)) None None) world0 ["load"]
           100 None "http://a/#top").
  - reflexivity.
  - reflexivity.
  - reflexivity.
  - right. vm_compute. reflexivity.
Defined.

(** C3. When the answer to the navigate command carries a falsy navigation
    identifier, [navigateFrame] returns no response at once: apart from the
    clock and the command sent, the world is as before, so no timer was armed
    and no watchdog was created. *)
Theorem navigateFrame_no_navigation (env : Env) (this : FrameManager) (frame : FrameRef)
    (url : string) (options : Options) (w : World) (conds : list string) (o : Frame)
    (instant : Z) (navigationId : NavigationId) :
  normalizeWaitUntil (waitUntil_of options) = inr conds →
  objects this !! frame = Some o →
  navigate_reply env = Some (instant, inr navigationId) →
  falsy_id navigationId = true →
  navigateFrame env this frame url options w
  = (Returned None,
     mkWorld (now w `max` instant) (timers w) (timer_count w) (watchdogs w)
       (effects w
        ++ [Sent "Page.navigate" (frameId (frame_data o)) (opt_referer options) url])).
Proof.
  destruct env as [reply next outcome response]. cbn [navigate_reply].
  unfold waitUntil_of. intros Hn Ho -> Hid.
  run_world. rewrite Hn, Ho. cbn. rewrite Hid. reflexivity.
Qed.

Lemma navigateFrame_no_navigation_witness :
  navigateFrame env_same_document manager1 1%nat "http://a/#top"
    (mkOptions (Some (Millis 500)) None (Some "http://referer/")) world0
  = (Returned None,
     mkWorld 10 ∅ 0 []
       [Sent "Page.navigate" "child" (Some "http://referer/") "http://a/#top"]).
Proof.
  apply (navigateFrame_no_navigation env_same_document manager1 1%nat "http://a/#top"
           (mkOptions (Some (Millis 500)) None (Some "http://referer/")) world0 ["load"]
           (mkFrame (Some 0%nat) [] "" "" false [] (mkFrameData "child" (Some "") ∅))
           10 None); reflexivity.
Defined.

(** C6, as it is stated, fails. For [navigateFrame] the timer is armed once
    the navigate command is answered, so the wait for the answer is not
    bounded by the timeout: with a timeout of 500 ms and an answer at 600 ms
    the call is unresolved when 500 ms have elapsed, and it returns the
    response at 700 ms instead of throwing; with no answer at all it stays
    suspended and never throws. A timeout below 1 runs a timer of 1 ms, which
    a navigation reported at once beats: with a timeout of -1 the call
    returns. And the text of a number from 2^53 on need not be its decimal
    representation: the message for a timeout of 10^21 reads [1e+21], that
    for 2^60 ends its digits in zeros. *)
Lemma navigateFrame_timeout_excludes_reply :
  let options := mkOptions (Some (Millis 500)) None None in
  let late := navigateFrame env_late_reply manager1 0%nat "http://a/" options world0 in
  let never := navigateFrame env_unanswered manager1 0%nat "http://a/" options world0 in
  let negative :=
    waitForFrameNavigation env_at_once manager1 0%nat
      (mkOptions (Some (Millis (-1))) None None) world0 in
  let huge :=
    waitForFrameNavigation (mkEnv None None None None) manager1 0%nat
      (mkOptions (Some (Millis 1000000000000000000000)) None None) world0 in
  late.1 = Returned (Some "response of n1")
  ∧ now late.2 = 700
  ∧ ¬ (∃ e, late.1 = Threw e ∧ exn_class e = TimeoutError)
  ∧ never.1 = Suspended
  ∧ timers never.2 = ∅
  ∧ negative.1 = Returned None
  ∧ huge.1 = Threw (mkExn TimeoutError "Navigation timeout of 1e+21 ms exceeded")
  ∧ ¬ contains "Navigation timeout of 1e+21 ms exceeded" "1000000000000000000000"
  ∧ timeout_message (Millis 1152921504606846976)
    = "Navigation timeout of 1152921504606847000 ms exceeded"
  ∧ ¬ contains (timeout_message (Millis 1152921504606846976)) "1152921504606846976".
Proof.
  cbv zeta. repeat split; try (vm_compute; reflexivity).
  - intros (e & He & _). vm_compute in He. discriminate He.
  - intros H. apply contains_includes in H. vm_compute in H. discriminate H.
  - intros H. apply contains_includes in H. vm_compute in H. discriminate H.
Qed.

Lemma timer_delay_le (t : Z) : 1 ≤ t → timer_delay t ≤ t.
Proof. intros Ht. unfold timer_delay. case_bool_decide; lia. Qed.

Lemma navigation_settles_before_later (env : Env) (d d' : Z) :
  d ≤ d' → navigation_settles_before env d' = false →
  navigation_settles_before env d = false.
Proof.
  unfold navigation_settles_before. intros Hd.
  destruct (navigation_outcome env) as [[instant value]|]; [|done].
  rewrite !bool_decide_eq_false. lia.
Qed.

Lemma wait_settles_before_later (env : Env) (d d' : Z) :
  d ≤ d' → wait_settles_before env d' = false → wait_settles_before env d = false.
Proof.
  unfold wait_settles_before. intros Hd.
  destruct (next_navigation env) as [[instant [navigationId url]]|]; [|done].
  rewrite !andb_false_iff, !orb_false_iff, !bool_decide_eq_false.
  intros [Hlate | [Hid Hnav]]; [left; lia|]. right. split; [done|].
  by eapply navigation_settles_before_later.
Qed.

Lemma timeout_message_safe (t : Z) :
  safe_integer t →
  timeout_message (Millis t) = "Navigation timeout of " +:+ pretty t +:+ " ms exceeded"
  ∧ contains (timeout_message (Millis t)) (pretty t).
Proof.
  intros Ht. unfold timeout_message, Number_toString.
  rewrite bool_decide_eq_true_2 by done. split; [done|].
  by exists "Navigation timeout of ", " ms exceeded".
Qed.

(** C6, amended. With a timeout of [t] ms, [t] at least 1, a
    [waitForFrameNavigation] that is not resolved before [t] ms have elapsed
    since the call, and a [navigateFrame] whose navigate command was answered
    with a navigation identifier and whose navigation is not resolved before
    [t] ms have elapsed since that answer, throw a [TimeoutError] whose message
    is ['Navigation timeout of ' + t + ' ms exceeded'], which contains the
    decimal representation of [t] when [t] is a safe integer; for every
    nonzero [t] the same holds of the deadline of the timer, which runs for
    [t] ms when [t] lies between 1 and 2^31 - 1 and for 1 ms otherwise. A
    [navigateFrame] whose navigate command is never answered stays suspended
    whatever its timeout. With a zero or otherwise falsy timeout neither call
    arms a timer. *)
Theorem timeout_error_carries_duration (env : Env) (this : FrameManager)
    (frame : FrameRef) (url : string) (options : Options) (w : World) :
  (∀ t conds,
     timeout_of this options = Millis t → t ≠ 0 →
     normalizeWaitUntil (waitUntil_of options) = inr conds →
     wait_settles_before env (now w + timer_delay t) = false
     ∨ (1 ≤ t ∧ wait_settles_before env (now w + t) = false) →
     ∃ e w', waitForFrameNavigation env this frame options w = (Threw e, w')
             ∧ exn_class e = TimeoutError
             ∧ exn_message e = timeout_message (Millis t)
             ∧ (safe_integer t →
                exn_message e = "Navigation timeout of " +:+ pretty t +:+ " ms exceeded"
                ∧ contains (exn_message e) (pretty t)))
  ∧ (∀ t conds o answered navigationId,
     timeout_of this options = Millis t → t ≠ 0 →
     normalizeWaitUntil (waitUntil_of options) = inr conds →
     objects this !! frame = Some o →
     navigate_reply env = Some (answered, inr navigationId) →
     falsy_id navigationId = false →
     navigation_settles_before env ((now w `max` answered) + timer_delay t) = false
     ∨ (1 ≤ t ∧ navigation_settles_before env ((now w `max` answered) + t) = false) →
     ∃ e w', navigateFrame env this frame url options w = (Threw e, w')
             ∧ exn_class e = TimeoutError
             ∧ exn_message e = timeout_message (Millis t)
             ∧ (safe_integer t →
                exn_message e = "Navigation timeout of " +:+ pretty t +:+ " ms exceeded"
                ∧ contains (exn_message e) (pretty t)))
  ∧ (∀ conds o,
     normalizeWaitUntil (waitUntil_of options) = inr conds →
     objects this !! frame = Some o →
     navigate_reply env = None →
     ∃ w', navigateFrame env this frame url options w = (Suspended, w')
           ∧ timers w' = timers w ∧ watchdogs w' = watchdogs w)
  ∧ (truthy (timeout_of this options) = false →
     ∀ out w',
       waitForFrameNavigation env this frame options w = (out, w')
       ∨ navigateFrame env this frame url options w = (out, w') →
       timers w' = timers w ∧ timer_count w' = timer_count w
       ∧ ∃ new, effects w' = effects w ++ new
                ∧ ∀ id delay, SetTimeout id delay ∉ new).
Proof.
  split; [|split; [|split]].
  - intros t conds Ht Hnz Hn Hlate.
    assert (Hlate' : wait_settles_before env (now w + timer_delay t) = false).
    { destruct Hlate as [H | [Hpos H]]; [done|].
      eapply wait_settles_before_later; [|exact H]. pose proof (timer_delay_le t Hpos). lia. }
    clear Hlate. revert Hlate'. pose proof (timeout_message_safe t) as Hmsg. revert Hmsg.
    destruct env as [reply next outcome response].
    unfold timeout_of, waitUntil_of, wait_settles_before, navigation_settles_before in *.
    cbn [next_navigation navigation_outcome].
    run_world. rewrite Hn, Ht. cbn [truthy to_delay].
    generalize (timeout_message (Millis t)) as message. intros message Hmsg.
    rewrite bool_decide_eq_true_2 by done. explore.
    all: intros Hlate; try discriminate Hlate; try (cbn in *; lia).
    all: eexists _, _; split; [reflexivity|]; cbn; done.
  - intros t conds o answered navigationId Ht Hnz Hn Ho Hreply Hid Hlate.
    assert (Hlate' : navigation_settles_before env
                       ((now w `max` answered) + timer_delay t) = false).
    { destruct Hlate as [H | [Hpos H]]; [done|].
      eapply navigation_settles_before_later; [|exact H].
      pose proof (timer_delay_le t Hpos). lia. }
    clear Hlate. revert Hlate'. pose proof (timeout_message_safe t) as Hmsg. revert Hmsg.
    destruct env as [reply next outcome response].
    unfold timeout_of, waitUntil_of, navigation_settles_before in *.
    cbn [navigate_reply navigation_outcome] in *. subst reply.
    run_world. rewrite Hn, Ho, Ht. cbn [truthy to_delay fmap option_fmap option_map].
    generalize (timeout_message (Millis t)) as message. intros message Hmsg.
    cbn. rewrite Hid. cbn. rewrite bool_decide_eq_true_2 by done. explore.
    all: intros Hlate; try discriminate Hlate; try (cbn in *; lia).
    all: eexists _, _; split; [reflexivity|]; cbn; done.
  - intros conds o Hn Ho Hreply. destruct env as [reply next outcome response].
    unfold waitUntil_of in *. cbn [navigate_reply] in Hreply. subst reply.
    run_world. rewrite Hn, Ho. cbn. by eexists.
  - destruct env as [reply next outcome response]. unfold timeout_of.
    intros Hfalsy out w' [H | H]; revert H; run_world; rewrite Hfalsy; explore.
    all: intros [= <- <-]; cbn [timers timer_count effects].
    all: repeat split.
    all: eexists; (split;
           [rewrite <- ?app_assoc; cbn [app]; first [reflexivity | symmetry; apply app_nil_r]|]).
    all: intros id delay Hin; rewrite ?elem_of_cons, elem_of_nil in Hin.
    all: repeat (destruct Hin as [Hin | Hin]; try discriminate Hin); done.
Qed.

Lemma timeout_error_carries_duration_witness :
  (∃ e w', waitForFrameNavigation env_slow manager1 0%nat
             (mkOptions (Some (Millis 500)) None None) world0 = (Threw e, w')
           ∧ exn_class e = TimeoutError
           ∧ exn_message e = "Navigation timeout of 500 ms exceeded"
           ∧ contains (exn_message e) "500")
  ∧ (∃ e w', navigateFrame env_slow manager1 0%nat "http://a/"
               (mkOptions (Some (Millis 500)) None None) world0 = (Threw e, w')
             ∧ exn_class e = TimeoutError
             ∧ exn_message e = "Navigation timeout of 500 ms exceeded"
             ∧ contains (exn_message e) "500")
  ∧ (∃ w', navigateFrame env_unanswered manager1 0%nat "http://a/"
             (mkOptions (Some (Millis 500)) None None) world0 = (Suspended, w')
           ∧ timers w' = ∅ ∧ watchdogs w' = [])
  ∧ (∀ out w',
       waitForFrameNavigation env_slow manager1 0%nat
         (mkOptions (Some (Millis 0)) None None) world0 = (out, w')
       ∨ navigateFrame env_slow manager1 0%nat "http://a/"
           (mkOptions (Some (Millis 0)) None None) world0 = (out, w') →
       timers w' = timers world0 ∧ timer_count w' = timer_count world0
       ∧ ∃ new, effects w' = effects world0 ++ new
                ∧ ∀ id delay, SetTimeout id delay ∉ new).
Proof.
  assert (Hsafe : safe_integer 500) by (unfold safe_integer; lia).
  split; [|split; [|split]].
  - destruct (proj1 (timeout_error_carries_duration env_slow manager1 0%nat ""
                       (mkOptions (Some (Millis 500)) None None) world0) 500 ["load"])
      as (e & w' & H & Hclass & _ & Hmsg).
    + reflexivity.
    + lia.
    + reflexivity.
    + right. split; [lia|]. vm_compute. reflexivity.
    + exists e, w'. split; [exact H|]. split; [exact Hclass|]. exact (Hmsg Hsafe).
  - destruct (proj1 (proj2 (timeout_error_carries_duration env_slow manager1 0%nat
                              "http://a/" (mkOptions (Some (Millis 500)) None None) world0))
                500 ["load"]
                (mkFrame None [1%nat] "" "" false [] (mkFrameData "main" (Some "") ∅))
                10 (Some "n1"))
      as (e & w' & H & Hclass & _ & Hmsg).
    + reflexivity.
    + lia.
    + reflexivity.
    + reflexivity.
    + reflexivity.
    + reflexivity.
    + right. split; [lia|]. vm_compute. reflexivity.
    + exists e, w'. split; [exact H|]. split; [exact Hclass|]. exact (Hmsg Hsafe).
  - apply (proj1 (proj2 (proj2 (timeout_error_carries_duration env_unanswered manager1
                                  0%nat "http://a/"
                                  (mkOptions (Some (Millis 500)) None None) world0)))
             ["load"]
             (mkFrame None [1%nat] "" "" false [] (mkFrameData "main" (Some "") ∅)));
      reflexivity.
  - apply (proj2 (proj2 (proj2 (timeout_error_carries_duration env_slow manager1 0%nat
                                  "http://a/"
                                  (mkOptions (Some (Millis 0)) None None) world0)))).
    reflexivity.
Defined.

(** C10. [normalizeWaitUntil] returns the empty list for the empty list, with
    no error. A [waitForFrameNavigation] given the empty list starts its
    next-navigation watchdog and waits on it: with no navigation it throws the
    timeout error when a timer is armed and stays suspended otherwise. A
    [navigateFrame] given it sends its command. Whichever navigation watchdog
    they then create is constructed with the empty list of conditions, and
    the call waits on that watchdog: it ends as the watchdog does when the
    watchdog resolves before the deadline of the timer or no timer is armed,
    and it stays suspended when the watchdog never resolves and no timer is
    armed. *)
Theorem empty_waitUntil_accepted (env : Env) (this : FrameManager) (frame : FrameRef)
    (url : string) (options : Options) (w : World) :
  let timeout := timeout_of this options in
  let delay := timer_delay (to_delay timeout) in
  let ends_as (value : option Exn) : Outcome (option Response) :=
    match value with
    | Some e => Threw e
    | None => Returned (navigation_response env)
    end in
  normalizeWaitUntil (Tokens []) = inr []
  ∧ (opt_waitUntil options = Some (Tokens []) →
     (∀ out w', waitForFrameNavigation env this frame options w = (out, w') →
        ∃ d dogs, watchdogs w' = watchdogs w ++ d :: dogs
                  ∧ wd_target d = None
                  ∧ Forall (tracks_with []) dogs)
     ∧ (next_navigation env = None →
        (waitForFrameNavigation env this frame options w).1
        = if truthy timeout then Threw (mkExn TimeoutError (timeout_message timeout))
          else Suspended)
     ∧ (∀ discovered navigationId u,
          next_navigation env = Some (discovered, (navigationId, u)) →
          falsy_id navigationId = false →
          truthy timeout = false ∨ discovered < now w + delay →
          (∃ d, (waitForFrameNavigation env this frame options w).2.(watchdogs)
                !! S (length (watchdogs w)) = Some d
                ∧ wd_target d = Some (navigationId, u, []))
          ∧ (navigation_outcome env = None → truthy timeout = false →
             (waitForFrameNavigation env this frame options w).1 = Suspended)
          ∧ (∀ settled value,
               navigation_outcome env = Some (settled, value) →
               truthy timeout = false ∨ settled < now w + delay →
               (waitForFrameNavigation env this frame options w).1 = ends_as value))
     ∧ (∀ o out w', objects this !! frame = Some o →
          navigateFrame env this frame url options w = (out, w') →
          Sent "Page.navigate" (frameId (frame_data o)) (opt_referer options) url
            ∈ effects w'
          ∧ ∃ dogs, watchdogs w' = watchdogs w ++ dogs ∧ Forall (tracks_with []) dogs)
     ∧ (∀ o answered navigationId,
          objects this !! frame = Some o →
          navigate_reply env = Some (answered, inr navigationId) →
          falsy_id navigationId = false →
          (∃ d, (navigateFrame env this frame url options w).2.(watchdogs)
                !! length (watchdogs w) = Some d
                ∧ wd_target d = Some (navigationId, url, []))
          ∧ (navigation_outcome env = None → truthy timeout = false →
             (navigateFrame env this frame url options w).1 = Suspended)
          ∧ (∀ settled value,
               navigation_outcome env = Some (settled, value) →
               truthy timeout = false ∨ settled < (now w `max` answered) + delay →
               (navigateFrame env this frame url options w).1 = ends_as value))).
Proof.
  cbv zeta. split; [reflexivity|].
  destruct env as [reply next outcome response].
  unfold timeout_of. cbn [navigate_reply next_navigation navigation_outcome
                           navigation_response].
  intros Hopt. split; [|split; [|split; [|split]]].
  - intros out w'. run_world. rewrite Hopt. explore.
    all: intros [= <- <-]; cbn [watchdogs]; rewrite <- ?app_assoc; cbn [app].
    all: eexists _, _; split; [reflexivity|]; split; [reflexivity|].
    all: repeat apply Forall_cons_2; try apply Forall_nil_2.
    all: by eexists _, _.
  - intros ->. run_world. rewrite Hopt.
    generalize (timeout_message (default (Millis (navigationTimeout this))
                                   (opt_timeout options))) as message. intros message.
    explore; reflexivity.
  - intros discovered navigationId u -> Hid Hwin. split; [|split].
    + revert Hwin. run_world. rewrite Hopt. explore.
      all: intros [Hwin | Hwin]; try discriminate Hwin; try (cbn in *; lia).
      all: cbn [snd watchdogs]; rewrite lookup_after_last; by eexists.
    + intros -> Ht. run_world. rewrite Hopt, Ht. explore.
      all: first [reflexivity | congruence].
    + intros settled value -> Hwin'. revert Hwin Hwin'. run_world. rewrite Hopt. explore.
      all: intros [Hwin | Hwin] [Hwin' | Hwin'].
      all: try discriminate Hwin; try discriminate Hwin'; try (cbn in *; lia).
      all: rewrite ?lookup_after_last; reflexivity.
  - intros o out w' Ho. run_world. rewrite Hopt, Ho. explore.
    all: intros [= <- <-]; cbn [watchdogs effects]; rewrite <- ?app_assoc; cbn [app].
    all: (split; [set_solver|]).
    all: eexists; (split; [first [reflexivity | symmetry; apply app_nil_r]|]).
    all: repeat apply Forall_cons_2; try apply Forall_nil_2.
    all: by eexists _, _.
  - intros o answered navigationId Ho -> Hid. split; [|split].
    + run_world. rewrite Hopt, Ho. cbn. rewrite Hid. explore.
      all: cbn [snd watchdogs]; rewrite ?lookup_last; by eexists.
    + intros -> Ht. run_world. rewrite Hopt, Ho, Ht. cbn. rewrite Hid. explore.
      all: first [reflexivity | congruence].
    + intros settled value -> Hwin. revert Hwin.
      run_world. rewrite Hopt, Ho. cbn. rewrite Hid. explore.
      all: intros [Hwin | Hwin]; try discriminate Hwin; try (cbn in *; lia).
      all: rewrite ?lookup_last; reflexivity.
Qed.

Lemma empty_waitUntil_accepted_witness :
  let options := mkOptions (Some (Millis 500)) (Some (Tokens [])) None in
  let patient := mkOptions (Some (Millis 0)) (Some (Tokens [])) None in
  normalizeWaitUntil (Tokens []) = inr []
  ∧ (∃ d, (waitForFrameNavigation env_navigation manager1 0%nat options world0).2.(watchdogs)
          !! 1%nat = Some d
          ∧ wd_target d = Some (Some "n1", "http://a/", []))
  ∧ (waitForFrameNavigation env_navigation manager1 0%nat options world0).1
    = Returned (Some "response of n1")
  ∧ (waitForFrameNavigation (mkEnv None None None None) manager1 0%nat options world0).1
    = Threw (mkExn TimeoutError "Navigation timeout of 500 ms exceeded")
  ∧ (waitForFrameNavigation (mkEnv None None None None) manager1 0%nat patient world0).1
    = Suspended
  ∧ (∃ d, (navigateFrame env_navigation manager1 0%nat "http://a/" options world0).2.(watchdogs)
          !! 0%nat = Some d
          ∧ wd_target d = Some (Some "n1", "http://a/", []))
  ∧ (navigateFrame env_failed manager1 0%nat "http://a/" options world0).1
    = Threw (mkExn Error "Navigation failed").
Proof.
  intros options patient.
  destruct (empty_waitUntil_accepted env_navigation manager1 0%nat "http://a/" options world0)
    as (H0 & H); [split; [exact H0|]].
  destruct H as (_ & _ & Hwait & _ & Hnavigate); [reflexivity|].
  destruct (Hwait 100 (Some "n1") "http://a/") as (Hdog & _ & Hend);
    [reflexivity | reflexivity | right; vm_compute; reflexivity |].
  split; [exact Hdog|]. split.
  { apply (Hend 200 None); [reflexivity | right; vm_compute; reflexivity]. }
  destruct (empty_waitUntil_accepted (mkEnv None None None None) manager1 0%nat "http://a/"
              options world0) as (_ & H); destruct H as (_ & Hnone & _); [reflexivity|].
  split; [apply Hnone; reflexivity|].
  destruct (empty_waitUntil_accepted (mkEnv None None None None) manager1 0%nat "http://a/"
              patient world0) as (_ & H); destruct H as (_ & Hnone' & _); [reflexivity|].
  split; [apply Hnone'; reflexivity|].
  destruct (Hnavigate (mkFrame None [1%nat] "" "" false [] (mkFrameData "main" (Some "") ∅))
              10 (Some "n1")) as (Hdog' & _); [reflexivity | reflexivity | reflexivity |].
  split; [exact Hdog'|].
  destruct (empty_waitUntil_accepted env_failed manager1 0%nat "http://a/" options world0)
    as (_ & H); destruct H as (_ & _ & _ & _ & Hfailed); [reflexivity|].
  destruct (Hfailed (mkFrame None [1%nat] "" "" false [] (mkFrameData "main" (Some "") ∅))
              10 (Some "n1")) as (_ & _ & Hend'); [reflexivity | reflexivity | reflexivity |].
  apply (Hend' 200 (Some (mkExn Error "Navigation failed")));
    [reflexivity | right; vm_compute; reflexivity].
Defined.

(** * Further properties *)

(** ** What the handlers keep true *)

Lemma lookup_alter_shape (f : Frame → Frame) (r i : nat) (store : list Frame) (o : Frame) :
  keeps_shape f → alter f r store !! i = Some o →
  ∃ o0, store !! i = Some o0 ∧ childFrames o = childFrames o0
        ∧ frameId (frame_data o) = frameId (frame_data o0).
Proof.
  intros Hf. rewrite list_lookup_alter. destruct (decide (r = i)) as [->|Hne].
  - destruct (store !! i) as [o0|] eqn:Ho0; [|discriminate].
    intros [= <-]. exists o0. split; [done|]. apply Hf.
  - intros Ho. by exists o.
Qed.

Lemma tree_ordered_alter (f : Frame → Frame) (r : nat) (store : list Frame) :
  keeps_shape f → tree_ordered store → tree_ordered (alter f r store).
Proof.
  intros Hf Hst i o Ho. rewrite length_alter.
  destruct (lookup_alter_shape _ _ _ _ _ Hf Ho) as (o0 & Ho0 & -> & _).
  by apply Hst.
Qed.

Lemma consistent_parts_alter main frames contexts store (f : Frame → Frame) (r : nat) :
  keeps_shape f →
  consistent_parts main frames contexts store →
  consistent_parts main frames contexts (alter f r store).
Proof.
  intros Hf (H1 & H2 & H3 & H4 & H5). unfold consistent_parts.
  rewrite length_alter. split; [done|]. split; [|split; [done|split; [done|]]].
  - intros id r' o Hid Ho.
    destruct (lookup_alter_shape _ _ _ _ _ Hf Ho) as (o0 & Ho0 & _ & ->). by eapply H2.
  - by apply tree_ordered_alter.
Qed.

Lemma consistent_parts_delete_frame main frames contexts store (id : string) :
  consistent_parts main frames contexts store →
  consistent_parts main (delete id frames) contexts store.
Proof.
  intros (H1 & H2 & H3 & H4 & H5). split; [|split; [|done]].
  - intros id' r Hr. apply lookup_delete_Some in Hr as [_ Hr]. by eapply H1.
  - intros id' r o Hr. apply lookup_delete_Some in Hr as [_ Hr]. by eapply H2.
Qed.

Lemma consistent_parts_delete_context main frames contexts store (cid : string) :
  consistent_parts main frames contexts store →
  consistent_parts main frames (delete cid contexts) store.
Proof.
  intros (H1 & H2 & H3 & H4 & H5). split; [done|]. split; [done|]. split; [done|].
  split; [|done].
  intros cid' c r Hc. apply lookup_delete_Some in Hc as [_ Hc]. by eapply H4.
Qed.

Lemma consistent_parts_insert_context main frames contexts store (cid : string)
    (c : ExecutionContext) :
  (∀ r, context_frame c = Some r → (r < length store)%nat) →
  consistent_parts main frames contexts store →
  consistent_parts main frames (<[cid := c]> contexts) store.
Proof.
  intros Hc (H1 & H2 & H3 & H4 & H5). split; [done|]. split; [done|]. split; [done|].
  split; [|done].
  intros cid' c' r Hc'. apply lookup_insert_Some in Hc' as [[_ <-] | [_ Hc']].
  - apply Hc.
  - by eapply H4.
Qed.

Lemma keeps_shape_navigated url name : keeps_shape (Frame._navigated url name).
Proof. by intros o. Qed.

Lemma keeps_shape_navigated_same url :
  keeps_shape (λ o, Frame._navigated url (frame_name o) o).
Proof. by intros o. Qed.

Lemma keeps_shape_detach : keeps_shape Frame._detach.
Proof. by intros o. Qed.

Lemma keeps_shape_contextDestroyed cid : keeps_shape (Frame._contextDestroyed cid).
Proof. by intros o. Qed.

Lemma keeps_shape_contextCreated role cid : keeps_shape (_contextCreated role cid).
Proof. by intros o. Qed.

Lemma keeps_shape_commit navigationId :
  keeps_shape (λ o, Frame.set_data (commit navigationId (frame_data o)) o).
Proof. intros o. by destruct o as [? ? ? ? ? ? []]. Qed.

Lemma keeps_shape_add_fired name :
  keeps_shape (λ o, Frame.set_data (add_fired name (frame_data o)) o).
Proof. intros o. by destruct o as [? ? ? ? ? ? []]. Qed.

(** The store after [new frames.Frame(..., parent)]: the parent, when there is
    one, has the new reference appended to its children. *)
Lemma tree_ordered_new (store : list Frame) (parent : option FrameRef) (data : FrameData) :
  (∀ p, parent = Some p → (p < length store)%nat) →
  tree_ordered store →
  tree_ordered
    (match parent with
     | Some p => alter (Frame.add_child (length store)) p store
     | None => store
     end ++ [Frame.new parent data]).
Proof.
  intros Hp Hst i o.
  set (linked := match parent with
                 | Some p => alter (Frame.add_child (length store)) p store
                 | None => store
                 end).
  assert (Hlen : length linked = length store).
  { subst linked. destruct parent; [apply length_alter | done]. }
  rewrite length_app, Hlen. cbn [length].
  intros Ho. apply lookup_app_Some in Ho as [Ho | [Hge Ho]].
  - assert (Hi : (i < length store)%nat).
    { rewrite <- Hlen. by eapply lookup_lt_Some. }
    subst linked. destruct parent as [p|].
    + rewrite list_lookup_alter in Ho. destruct (decide (p = i)) as [->|Hne].
      * destruct (store !! i) as [o0|] eqn:Ho0; [|discriminate].
        injection Ho as <-. cbn. apply Forall_app. split.
        -- eapply Forall_impl; [by apply Hst|]. cbn. intros; lia.
        -- apply Forall_singleton. lia.
      * eapply Forall_impl; [by apply Hst|]. cbn. intros; lia.
    + eapply Forall_impl; [by apply Hst|]. cbn. intros; lia.
  - rewrite Hlen in Ho, Hge.
    destruct (i - length store)%nat eqn:Hd; [|by destruct n].
    injection Ho as <-. cbn. constructor.
Qed.

Lemma consistent_parts_attach main frames contexts store (id : string)
    (parent : option FrameRef) (data : FrameData) :
  consistent_parts main frames contexts store →
  (∀ p, parent = Some p → (p < length store)%nat) →
  frameId data = id →
  let store' :=
    match parent with
    | Some p => alter (Frame.add_child (length store)) p store
    | None => store
    end ++ [Frame.new parent data] in
  consistent_parts main frames contexts store'
  ∧ consistent_parts main (<[id := length store]> frames) contexts store'
  ∧ consistent_parts (Some (length store)) (<[id := length store]> frames) contexts store'.
Proof.
  intros (H1 & H2 & H3 & H4 & H5) Hp Hdata store'.
  set (linked := match parent with
                 | Some p => alter (Frame.add_child (length store)) p store
                 | None => store
                 end) in *.
  assert (Hlen : length linked = length store).
  { subst linked. destruct parent; [apply length_alter | done]. }
  assert (Hlen' : length store' = S (length store)).
  { subst store'. rewrite length_app, Hlen. cbn. lia. }
  assert (Hold : ∀ r o, (r < length store)%nat → store' !! r = Some o →
                        ∃ o0, store !! r = Some o0
                              ∧ frameId (frame_data o) = frameId (frame_data o0)).
  { intros r o Hr Ho. subst store'. rewrite lookup_app_l in Ho by lia.
    subst linked. destruct parent as [p|]; [|by exists o].
    rewrite list_lookup_alter in Ho. destruct (decide (p = r)) as [->|Hne]; [|by exists o].
    destruct (store !! r) as [o0|]; [|discriminate]. injection Ho as <-. by exists o0. }
  assert (Hnew : ∀ o, store' !! length store = Some o → frameId (frame_data o) = id).
  { intros o Ho. subst store'. rewrite lookup_app_r in Ho by lia.
    rewrite Hlen, Nat.sub_diag in Ho. by injection Ho as <-. }
  assert (Htree : tree_ordered store') by by apply tree_ordered_new.
  assert (Hframes : ∀ id' r, frames !! id' = Some r → (r < length store')%nat).
  { intros id' r Hr. rewrite Hlen'. apply H1 in Hr. lia. }
  assert (Hkeys : ∀ id' r o, frames !! id' = Some r → store' !! r = Some o →
                             frameId (frame_data o) = id').
  { intros id' r o Hr Ho. destruct (Hold r o) as (o0 & Ho0 & ->); [by eapply H1 | done |].
    by eapply H2. }
  assert (Hmain : ∀ r, main = Some r → (r < length store')%nat).
  { intros r Hr. rewrite Hlen'. apply H3 in Hr. lia. }
  assert (Hctx : ∀ cid c r, contexts !! cid = Some c → context_frame c = Some r →
                            (r < length store')%nat).
  { intros cid c r Hc Hr. rewrite Hlen'. specialize (H4 _ _ _ Hc Hr). lia. }
  assert (Hframes' : ∀ id' r, <[id := length store]> frames !! id' = Some r →
                              (r < length store')%nat).
  { intros id' r Hr. apply lookup_insert_Some in Hr as [[_ <-] | [_ Hr]]; [lia | eauto]. }
  assert (Hkeys' : ∀ id' r o, <[id := length store]> frames !! id' = Some r →
                              store' !! r = Some o → frameId (frame_data o) = id').
  { intros id' r o Hr Ho. apply lookup_insert_Some in Hr as [[<- <-] | [_ Hr]]; eauto. }
  repeat split; try done.
  intros r [= <-]. lia.
Qed.

Ltac run_listener :=
  unfold deliver, listener, _onExecutionContextCreated, _onNavigationCommitted,
    _onSameDocumentNavigation, _onFrameAttached, _onFrameDetached, _onEventFired,
    _onExecutionContextDestroyed, on_frameData, call_on, new_Frame, emit, assert,
    deref, modify, get, throw, mbind, M_bind, mret, M_ret, set_objects, set_frames,
    set_mainFrame, set_contexts;
  cbn.

Lemma deliver_consistent (m : FrameManager) (n : Notification) :
  consistent m → consistent (deliver m n).
Proof.
  unfold consistent. intros Hm. destruct n as
    [id name | id pid | id | id url name nav | id url | cid aux | cid].
  - run_listener. destruct (_frames m !! id) as [r|] eqn:Hr; cbn; [|done].
    repeat case_bool_decide; cbn;
      by apply consistent_parts_alter, Hm; apply keeps_shape_add_fired.
  - run_listener.
    destruct (option_bind _ _ _ pid) as [p|] eqn:Hp; cbn.
    + destruct (consistent_parts_attach _ _ _ _ id (Some p) (mkFrameData id (Some "") ∅) Hm)
        as (_ & H & _); [|done|exact H].
      intros p' [= <-]. destruct pid as [pid|]; [|done]. cbn in Hp.
      by eapply (proj1 Hm).
    + destruct (consistent_parts_attach _ _ _ _ id None (mkFrameData id (Some "") ∅) Hm)
        as (Hthrown & _ & Hmain'); [done|done|].
      case_bool_decide as Hmain; cbn; [exact Hmain' | exact Hthrown].
  - run_listener. destruct (_frames m !! id) as [r|] eqn:Hr; cbn.
    + apply consistent_parts_alter; [apply keeps_shape_detach|].
      by apply consistent_parts_delete_frame.
    + by apply consistent_parts_delete_frame.
  - run_listener. destruct (_frames m !! id) as [r|] eqn:Hr; cbn; [|done].
    apply consistent_parts_alter; [apply keeps_shape_commit|].
    apply consistent_parts_alter; [apply keeps_shape_navigated|]. done.
  - run_listener. destruct (_frames m !! id) as [r|] eqn:Hr; cbn; [|done].
    apply consistent_parts_alter; [apply keeps_shape_navigated_same|]. done.
  - run_listener.
    destruct (option_bind _ _ _ (option_bind _ _ _ aux)) as [r|] eqn:Hr; cbn.
    + apply consistent_parts_insert_context.
      * cbn. intros r' [= <-]. rewrite !length_alter.
        destruct (option_bind _ _ _ aux) as [fid|]; [|done]. cbn in Hr.
        by eapply (proj1 Hm).
      * apply consistent_parts_alter; [apply keeps_shape_contextCreated|].
        apply consistent_parts_alter; [apply keeps_shape_contextCreated|]. done.
    + by apply consistent_parts_insert_context.
  - run_listener. destruct (_contextIdToContext m !! cid) as [[[owner|]]|] eqn:Hc; cbn.
    + apply consistent_parts_alter; [apply keeps_shape_contextDestroyed|].
      by apply consistent_parts_delete_context.
    + by apply consistent_parts_delete_context.
    + done.
Qed.

Lemma deliver_all_consistent (ns : list Notification) (m : FrameManager) :
  consistent m → consistent (deliver_all ns m).
Proof.
  revert m. induction ns as [|n ns IH]; intros m Hm; [done|].
  cbn. apply IH. by apply deliver_consistent.
Qed.

Lemma fresh_consistent (timeout : Z) :
  consistent (mkFrameManager timeout None ∅ ∅ [] []).
Proof.
  unfold consistent, consistent_parts. cbn. repeat split; done.
Qed.

(** X1. Whatever notifications a fresh manager receives, and whether their
    listeners return or throw, the frame map, the main-frame pointer and the
    owners of the registered contexts designate frame objects of the store,
    every frame is registered under the identifier its own data carries, and
    the children of a frame are allocated after it. *)
Theorem notifications_keep_consistent (timeout : Z) (ns : list Notification) :
  let m := deliver_all ns (mkFrameManager timeout None ∅ ∅ [] []) in
  (∀ id r, _frames m !! id = Some r →
     ∃ o, objects m !! r = Some o ∧ frameId (frame_data o) = id)
  ∧ (∀ r, _mainFrame m = Some r → is_Some (objects m !! r))
  ∧ (∀ cid c r, executionContextById m cid = Some c → context_frame c = Some r →
       is_Some (objects m !! r))
  ∧ tree_ordered (objects m).
Proof.
  intros m.
  destruct (deliver_all_consistent ns _ (fresh_consistent timeout))
    as (H1 & H2 & H3 & H4 & H5). fold m in H1, H2, H3, H4, H5.
  split; [|split; [|split]].
  - intros id r Hr. destruct (lookup_lt_is_Some_2 (objects m) r) as [o Ho]; [by eapply H1|].
    exists o. split; [done|]. by eapply H2.
  - intros r Hr. apply lookup_lt_is_Some_2. by apply H3.
  - intros cid c r Hc Hr. apply lookup_lt_is_Some_2. by eapply H4.
  - done.
Qed.

Lemma notifications_keep_consistent_witness :
  ∃ o, objects manager2 !! 3%nat = Some o ∧ frameId (frame_data o) = "c".
Proof.
  apply (proj1 (notifications_keep_consistent 30000
                  [Page_frameAttached "main" None; Page_frameAttached "a" (Some "main");
                   Page_frameAttached "b" (Some "main"); Page_frameAttached "c" (Some "a")])
           "c" 3%nat).
  reflexivity.
Defined.

(** ** frames() *)

Lemma for_each_acc (body : FrameRef → list FrameRef → option (list FrameRef))
    (cs : list FrameRef) (acc l : list FrameRef) :
  (∀ c acc, c ∈ cs → body c acc = (acc ++.) <$> body c []) →
  for_each body cs (acc ++ l) = (acc ++.) <$> for_each body cs l.
Proof.
  revert l. induction cs as [|c cs IH]; intros l Hbody; [done|].
  cbn. rewrite (Hbody c (acc ++ l)), (Hbody c l) by by left.
  destruct (body c []) as [lc|]; cbn; [|done].
  rewrite <- app_assoc. apply IH. intros c' acc' Hc'. apply Hbody. by right.
Qed.

Lemma collect_acc (fuel : nat) (store : list Frame) (frame : FrameRef)
    (acc : list FrameRef) :
  collect fuel store frame acc = (acc ++.) <$> collect fuel store frame [].
Proof.
  revert frame acc. induction fuel as [|fuel IH]; intros frame acc; [done|].
  cbn. apply for_each_acc. intros c acc' _. apply IH.
Qed.

Lemma for_each_Some (body : FrameRef → list FrameRef → option (list FrameRef))
    (cs : list FrameRef) (l0 l : list FrameRef) :
  (∀ c acc, body c acc = (acc ++.) <$> body c []) →
  for_each body cs l0 = Some l
  ↔ ∃ ls, Forall2 (λ c lc, body c [] = Some lc) cs ls ∧ l = l0 ++ concat ls.
Proof.
  intros Hbody. revert l0. induction cs as [|c cs IH]; intros l0; cbn.
  - split.
    + intros [= <-]. exists []. split; [constructor|]. by rewrite app_nil_r.
    + intros (ls & Hls & ->). apply Forall2_nil_inv_l in Hls as ->.
      by rewrite app_nil_r.
  - rewrite (Hbody c l0). destruct (body c []) as [lc|] eqn:Hc; cbn.
    + rewrite IH. split.
      * intros (ls & Hls & ->). exists (lc :: ls). split; [by constructor|].
        cbn. by rewrite app_assoc.
      * intros (ls & Hls & ->). apply Forall2_cons_inv_l in Hls as (lc' & ls' & Hc' & Hls & ->).
        exists ls'. split; [done|]. cbn. rewrite app_assoc. congruence.
    + split; [done|]. intros (ls & Hls & _).
      apply Forall2_cons_inv_l in Hls as (lc' & ls' & Hc' & _ & _). congruence.
Qed.

Lemma collect_unfold (fuel : nat) (store : list Frame) (frame : FrameRef)
    (acc l : list FrameRef) :
  collect (S fuel) store frame acc = Some l
  ↔ ∃ ls, Forall2 (λ c lc, collect fuel store c [] = Some lc)
                  (childFrames_of store frame) ls
          ∧ l = acc ++ frame :: concat ls.
Proof.
  cbn [collect]. rewrite for_each_Some by (intros; apply collect_acc).
  split; intros (ls & Hls & ->); exists ls; (split; [done|]); by rewrite <- app_assoc.
Qed.

(** X2. The listing of a frame is the frame followed by the listings of its
    child frames, one after the other in the order of the child collection:
    parents come before their children, siblings in the order of attachment. *)
Theorem collect_preorder (fuel : nat) (store : list Frame) (frame : FrameRef)
    (acc l : list FrameRef) :
  collect (S fuel) store frame acc = Some l
  ↔ ∃ ls, Forall2 (λ c lc, collect fuel store c [] = Some lc)
                  (childFrames_of store frame) ls
          ∧ l = acc ++ frame :: concat ls.
Proof.
  cbn [collect]. rewrite for_each_Some by (intros; apply collect_acc).
  split; intros (ls & Hls & ->); exists ls; (split; [done|]); by rewrite <- app_assoc.
Qed.

Lemma collect_ends (store : list Frame) (fuel : nat) (frame : FrameRef) :
  tree_ordered store → (frame < length store)%nat → (length store - frame ≤ fuel)%nat →
  ∃ l, collect fuel store frame [] = Some (frame :: l)
       ∧ Forall (λ x, (frame < x < length store)%nat) l.
Proof.
  intros Hst. revert frame. induction fuel as [|fuel IH]; intros frame Hlt Hfuel; [lia|].
  destruct (lookup_lt_is_Some_2 store frame Hlt) as [o Ho].
  assert (Hcs : Forall (λ c, (frame < c < length store)%nat) (childFrames_of store frame)).
  { unfold childFrames_of. rewrite Ho. cbn. by apply Hst. }
  assert (∃ ls, Forall2 (λ c lc, collect fuel store c [] = Some lc)
                        (childFrames_of store frame) ls
                ∧ Forall (λ x, (frame < x < length store)%nat) (concat ls))
    as (ls & Hls & Hall).
  { induction Hcs as [|c cs Hc _ IHcs].
    - exists []. split; constructor.
    - destruct IHcs as (ls & Hls & Hall).
      destruct (IH c) as (lc & Hlc & Hlc'); [lia | lia |].
      exists ((c :: lc) :: ls). split; [by constructor|].
      cbn. constructor; [lia|]. apply Forall_app. split; [|done].
      eapply Forall_impl; [exact Hlc'|]. cbn. intros; lia. }
  exists (concat ls). split; [|done].
  apply collect_unfold. by exists ls.
Qed.

Lemma for_each_mono (body body' : FrameRef → list FrameRef → option (list FrameRef))
    (cs : list FrameRef) (l0 l : list FrameRef) :
  (∀ c acc r, body c acc = Some r → body' c acc = Some r) →
  for_each body cs l0 = Some l → for_each body' cs l0 = Some l.
Proof.
  intros Hb. revert l0. induction cs as [|c cs IH]; intros l0; cbn; [done|].
  destruct (body c l0) as [r|] eqn:Hr; [|done].
  rewrite (Hb _ _ _ Hr). apply IH.
Qed.

Lemma collect_mono (store : list Frame) (fuel fuel' : nat) (frame : FrameRef)
    (acc l : list FrameRef) :
  (fuel ≤ fuel')%nat → collect fuel store frame acc = Some l →
  collect fuel' store frame acc = Some l.
Proof.
  revert fuel' frame acc l. induction fuel as [|fuel IH]; intros fuel' frame acc l Hle; [done|].
  destruct fuel' as [|fuel']; [lia|]. cbn.
  apply for_each_mono. intros c acc' r. apply IH. lia.
Qed.

(** X3. [frames()] throws the [TypeError] of a dereferenced [null] when no main
    frame has been attached. On a manager as any notifications leave it, with a
    main frame, the recursion ends within as many levels as the store has
    frames, whatever larger bound gives the same list, the list starts with
    the main frame, and it holds frames of the store only. *)
Theorem frames_after_notifications (timeout : Z) (ns : list Notification) :
  let m := deliver_all ns (mkFrameManager timeout None ∅ ∅ [] []) in
  (_mainFrame m = None →
     ∀ fuel, ∃ e, frames fuel m = Some (inl e) ∧ exn_class e = TypeError)
  ∧ (∀ r, _mainFrame m = Some r →
       ∃ l, (∀ fuel, (length (objects m) ≤ fuel)%nat → frames fuel m = Some (inr (r :: l)))
            ∧ Forall (λ x, (r < x)%nat ∧ is_Some (objects m !! x)) l).
Proof.
  intros m.
  destruct (deliver_all_consistent ns _ (fresh_consistent timeout))
    as (_ & _ & Hmain & _ & Htree). fold m in Hmain, Htree. split.
  - intros Hnone fuel. unfold frames. rewrite Hnone. by eexists.
  - intros r Hr.
    destruct (collect_ends (objects m) (length (objects m)) r) as (l & Hl & Hall);
      [done | by apply Hmain | lia |].
    exists l. split.
    + intros fuel Hfuel. unfold frames. rewrite Hr.
      by rewrite (collect_mono _ _ fuel _ _ _ Hfuel Hl).
    + eapply Forall_impl; [exact Hall|]. cbn. intros x [? ?].
      split; [done|]. by apply lookup_lt_is_Some_2.
Qed.

Lemma frames_after_notifications_witness :
  (∃ e, frames 0 manager0 = Some (inl e) ∧ exn_class e = TypeError)
  ∧ ∃ l, frames 4 manager2 = Some (inr (0%nat :: l))
         ∧ Forall (λ x, (0 < x)%nat ∧ is_Some (objects manager2 !! x)) l.
Proof.
  split.
  - apply (proj1 (frames_after_notifications 30000 [])). reflexivity.
  - destruct (proj2 (frames_after_notifications 30000
                       [Page_frameAttached "main" None; Page_frameAttached "a" (Some "main");
                        Page_frameAttached "b" (Some "main");
                        Page_frameAttached "c" (Some "a")]) 0%nat)
      as (l & Hl & Hall); [reflexivity|].
    exists l. split; [|exact Hall]. apply Hl. vm_compute. lia.
Defined.

Example frames_manager2 : frames 4 manager2 = Some (inr [0; 1; 3; 2]%nat).
Proof. reflexivity. Qed.

(** ** The frame tree *)

(** X4. A frame-attached notification whose parent is a known frame never
    throws, also when a main frame exists: the new frame object is allocated
    with that parent, appended to the parent's child collection and registered
    under its identifier; the main frame and all other frame objects are as
    before, and one [FrameAttached] is emitted. *)
Theorem frameAttached_child (m : FrameManager) (id pid : string) (p : FrameRef)
    (po : Frame) :
  _frames m !! pid = Some p →
  objects m !! p = Some po →
  let r := length (objects m) in
  ∃ m', _onFrameAttached id (Some pid) m = (Returned (), m')
        ∧ _frames m' = <[id := r]> (_frames m)
        ∧ _mainFrame m' = _mainFrame m
        ∧ objects m' !! r = Some (Frame.new (Some p) (mkFrameData id (Some "") ∅))
        ∧ objects m' !! p = Some (Frame.add_child r po)
        ∧ (∀ r', r' ≠ p → r' ≠ r → objects m' !! r' = objects m !! r')
        ∧ emitted m' = emitted m ++ [FrameAttached r].
Proof.
  intros Hp Hpo r.
  assert (Hlt : (p < length (objects m))%nat) by by eapply lookup_lt_Some.
  eexists. split.
  { run_listener. rewrite Hp. cbn. reflexivity. }
  cbn. split; [done|]. split; [done|].
  split; [|split; [|split; [|done]]].
  - apply list_lookup_middle. by rewrite length_alter.
  - rewrite lookup_app_l by by rewrite length_alter.
    by rewrite list_lookup_alter_eq, Hpo.
  - intros r' Hr' Hr''. destruct (decide (r' < length (objects m))%nat).
    + rewrite lookup_app_l by by rewrite length_alter.
      by rewrite list_lookup_alter_ne.
    + rewrite (lookup_ge_None_2 (objects m)) by lia.
      apply lookup_ge_None_2. rewrite length_app, length_alter. cbn. subst r. lia.
Qed.

Lemma frameAttached_child_witness :
  ∃ m', _onFrameAttached "c" (Some "child") manager1 = (Returned (), m')
        ∧ _frames m' = <["c" := 2%nat]> (_frames manager1)
        ∧ _mainFrame m' = Some 0%nat
        ∧ (childFrames <$> objects m' !! 1%nat) = Some [2%nat]
        ∧ emitted m' = emitted manager1 ++ [FrameAttached 2%nat].
Proof.
  destruct (frameAttached_child manager1 "c" "child" 1%nat
              (mkFrame (Some 0%nat) [] "" "" false [] (mkFrameData "child" (Some "") ∅)))
    as (m' & H & Hf & Hm & _ & Hp & _ & He); [reflexivity | reflexivity |].
  exists m'. split; [exact H|]. split; [exact Hf|]. split; [exact Hm|].
  split; [by rewrite Hp | exact He].
Defined.

Lemma deliver_keeps_main (m : FrameManager) (n : Notification) (r : FrameRef) :
  _mainFrame m = Some r → _mainFrame (deliver m n) = Some r.
Proof.
  intros Hm. destruct n as
    [id name | id pid | id | id url name nav | id url | cid aux | cid]; run_listener.
  - destruct (_frames m !! id); cbn; [|done]. by repeat case_bool_decide.
  - destruct (option_bind _ _ _ pid); cbn; [done|]. by rewrite Hm.
  - by destruct (_frames m !! id).
  - by destruct (_frames m !! id).
  - by destruct (_frames m !! id).
  - by destruct (option_bind _ _ _ (option_bind _ _ _ aux)).
  - by destruct (_contextIdToContext m !! cid) as [[[owner|]]|].
Qed.

Lemma deliver_all_keeps_main (ns : list Notification) (m : FrameManager) (r : FrameRef) :
  _mainFrame m = Some r → _mainFrame (deliver_all ns m) = Some r.
Proof.
  revert m. induction ns as [|n ns IH]; intros m Hm; [done|].
  cbn. apply IH. by apply deliver_keeps_main.
Qed.

(** X5. No listener ever resets the main-frame pointer: once a main frame has
    been attached it stays the main frame through every later notification,
    its own detachment included, so that every later frame-attached
    notification with no known parent throws the fatal
    [INTERNAL ERROR: re-attaching main frame!]. *)
Theorem main_frame_is_never_reset (ns : list Notification) (m : FrameManager)
    (r : FrameRef) (id : string) (pid : option string) :
  _mainFrame m = Some r →
  let m' := deliver_all ns m in
  _mainFrame m' = Some r
  ∧ (pid ≫= (_frames m' !!.) = None →
     ∃ m'', _onFrameAttached id pid m'
            = (Threw (mkExn Error "INTERNAL ERROR: re-attaching main frame!"), m'')
            ∧ _mainFrame m'' = Some r ∧ _frames m'' = _frames m').
Proof.
  intros Hm m'. assert (Hm' : _mainFrame m' = Some r) by by apply deliver_all_keeps_main.
  split; [done|]. unfold mbind. intros Hp. eexists. split.
  { run_listener. rewrite Hp. cbn. rewrite Hm'. cbn. reflexivity. }
  done.
Qed.

Lemma main_frame_is_never_reset_witness :
  let m' := deliver_all [Page_frameDetached "main"] manager1 in
  _frames m' !! "main" = None
  ∧ _mainFrame m' = Some 0%nat
  ∧ (detached <$> objects m' !! 0%nat) = Some true
  ∧ ∃ m'', _onFrameAttached "main" None m'
           = (Threw (mkExn Error "INTERNAL ERROR: re-attaching main frame!"), m'')
           ∧ _mainFrame m'' = Some 0%nat ∧ _frames m'' = _frames m'.
Proof.
  intros m'. split; [reflexivity|].
  destruct (main_frame_is_never_reset [Page_frameDetached "main"] manager1 0%nat "main" None)
    as [Hmain Hthrow]; [reflexivity|].
  split; [exact Hmain|]. split; [reflexivity|]. apply Hthrow. reflexivity.
Defined.

(** X6. On a known frame, a navigation-committed notification replaces url
    and name, records the navigation identifier and clears the fired events,
    whereas a same-document navigation replaces the url alone and keeps the
    name, the committed identifier and the fired events; either emits one
    [FrameNavigated] and leaves the frame map, the main frame and every other
    frame object as they were. *)
Theorem navigation_updates_frame (m : FrameManager) (id : string) (r : FrameRef)
    (o : Frame) :
  _frames m !! id = Some r →
  objects m !! r = Some o →
  (∀ url name navigationId,
     ∃ m', _onNavigationCommitted id url name navigationId m = (Returned (), m')
           ∧ objects m' !! r
             = Some (mkFrame (parentFrame o) (childFrames o) url name (detached o)
                       (frame_contexts o)
                       (mkFrameData (frameId (frame_data o)) navigationId ∅))
           ∧ (∀ r', r' ≠ r → objects m' !! r' = objects m !! r')
           ∧ _frames m' = _frames m ∧ _mainFrame m' = _mainFrame m
           ∧ emitted m' = emitted m ++ [FrameNavigated r])
  ∧ (∀ url,
     ∃ m', _onSameDocumentNavigation id url m = (Returned (), m')
           ∧ objects m' !! r
             = Some (mkFrame (parentFrame o) (childFrames o) url (frame_name o)
                       (detached o) (frame_contexts o) (frame_data o))
           ∧ (∀ r', r' ≠ r → objects m' !! r' = objects m !! r')
           ∧ _frames m' = _frames m ∧ _mainFrame m' = _mainFrame m
           ∧ emitted m' = emitted m ++ [FrameNavigated r]).
Proof.
  intros Hr Ho. split.
  - intros url name nav. eexists. split.
    { run_listener. rewrite Hr. cbn. reflexivity. }
    cbn. split; [|split; [|done]].
    + rewrite !list_lookup_alter_eq, Ho. cbn. by destruct o as [? ? ? ? ? ? []].
    + intros r' Hr'. by rewrite !list_lookup_alter_ne.
  - intros url. eexists. split.
    { run_listener. rewrite Hr. cbn. reflexivity. }
    cbn. split; [|split; [|done]].
    + by rewrite list_lookup_alter_eq, Ho.
    + intros r' Hr'. by rewrite list_lookup_alter_ne.
Qed.

Lemma navigation_updates_frame_witness :
  (∃ m', _onNavigationCommitted "child" "http://a/" "inner" (Some "n1") manager1
         = (Returned (), m')
         ∧ objects m' !! 1%nat
           = Some (mkFrame (Some 0%nat) [] "http://a/" "inner" false []
                     (mkFrameData "child" (Some "n1") ∅))
         ∧ emitted m' = emitted manager1 ++ [FrameNavigated 1%nat])
  ∧ (∃ m', _onSameDocumentNavigation "child" "http://a/#top" manager1 = (Returned (), m')
           ∧ objects m' !! 1%nat
             = Some (mkFrame (Some 0%nat) [] "http://a/#top" "" false []
                       (mkFrameData "child" (Some "") ∅))
           ∧ emitted m' = emitted manager1 ++ [FrameNavigated 1%nat]).
Proof.
  destruct (navigation_updates_frame manager1 "child" 1%nat
              (mkFrame (Some 0%nat) [] "" "" false [] (mkFrameData "child" (Some "") ∅)))
    as [Hc Hs]; [reflexivity | reflexivity |]. split.
  - destruct (Hc "http://a/" "inner" (Some "n1")) as (m' & H & Ho & _ & _ & _ & He).
    exists m'. split; [exact H|]. split; [exact Ho | exact He].
  - destruct (Hs "http://a/#top") as (m' & H & Ho & _ & _ & _ & He).
    exists m'. split; [exact H|]. split; [exact Ho | exact He].
Defined.

(** X7. The events fired on a frame before a navigation commits are forgotten
    by the commit: after an event, a commit and a second event, the fired
    events of the frame hold the lowercased name of the second event alone,
    and the committed identifier is that of the commit. *)
Theorem commit_forgets_fired_events (m : FrameManager) (id : string) (r : FrameRef)
    (o : Frame) (before url name after : string) (navigationId : NavigationId) :
  _frames m !! id = Some r →
  objects m !! r = Some o →
  ∃ m' o',
    (_onEventFired id before;; _onNavigationCommitted id url name navigationId;;
     _onEventFired id after) m = (Returned (), m')
    ∧ objects m' !! r = Some o'
    ∧ firedEvents (frame_data o') = {[toLowerCase after]}
    ∧ lastCommittedNavigationId (frame_data o') = navigationId.
Proof.
  intros Hr Ho.
  assert (∃ m', (_onEventFired id before;;
                 _onNavigationCommitted id url name navigationId;;
                 _onEventFired id after) m = (Returned (), m')
                ∧ objects m'
                  = alter (λ o, Frame.set_data (add_fired (toLowerCase after) (frame_data o)) o) r
                      (alter (λ o, Frame.set_data (commit navigationId (frame_data o)) o) r
                         (alter (Frame._navigated url name) r
                            (alter (λ o, Frame.set_data
                                           (add_fired (toLowerCase before) (frame_data o)) o)
                                   r (objects m)))))
    as (m' & Hrun & Hobjects).
  { run_listener. rewrite Hr. cbn.
    repeat (case_bool_decide; cbn; rewrite ?Hr; cbn); eexists; (split; reflexivity). }
  exists m'. rewrite Hobjects, !list_lookup_alter_eq, Ho. cbn.
  eexists. split; [exact Hrun|]. split; [reflexivity|].
  destruct o as [? ? ? ? ? ? []]. cbn. split; [|done].
  apply union_empty_r_L.
Qed.

Lemma commit_forgets_fired_events_witness :
  ∃ m' o',
    (_onEventFired "main" "load";;
     _onNavigationCommitted "main" "http://a/" "" (Some "n2");;
     _onEventFired "main" "DOMContentLoaded") manager1 = (Returned (), m')
    ∧ objects m' !! 0%nat = Some o'
    ∧ firedEvents (frame_data o') = {["domcontentloaded"]}
    ∧ lastCommittedNavigationId (frame_data o') = Some "n2".
Proof.
  apply (commit_forgets_fired_events manager1 "main" 0%nat
           (mkFrame None [1%nat] "" "" false [] (mkFrameData "main" (Some "") ∅)));
    reflexivity.
Defined.

(** X8. A frame attached and then detached under the same identifier leaves
    the frame map without that identifier, as it was if the identifier was
    free; the frame object stays in the store, marked detached; both events
    are emitted in order; and when the frame was attached as the main frame,
    the main-frame pointer still designates the detached frame. *)
Theorem attach_then_detach (m : FrameManager) (id : string) (pid : option string) :
  let parent : option FrameRef := pid ≫= (_frames m !!.) in
  let r := length (objects m) in
  is_Some parent ∨ _mainFrame m = None →
  ∃ m',
    (_onFrameAttached id pid;; _onFrameDetached id) m = (Returned (), m')
    ∧ _frames m' = delete id (_frames m)
    ∧ (_frames m !! id = None → _frames m' = _frames m)
    ∧ (detached <$> objects m' !! r) = Some true
    ∧ emitted m' = emitted m ++ [FrameAttached r; FrameDetached r]
    ∧ _mainFrame m' = match parent with Some _ => _mainFrame m | None => Some r end.
Proof.
  intros parent r Hok. subst parent. unfold mbind in *.
  assert (Hlast : ∀ (store : list Frame) o,
            length store = r →
            (detached <$> alter Frame._detach r (store ++ [o]) !! r) = Some true).
  { intros store o <-. by rewrite list_lookup_alter_eq, lookup_last. }
  destruct (option_bind _ _ _ pid) as [p|] eqn:Hp.
  - eexists. split.
    { run_listener. rewrite Hp. cbn. rewrite lookup_insert_eq. cbn. reflexivity. }
    cbn. split; [apply delete_insert_eq|]. split; [intros Hid; by apply delete_insert_id|].
    split; [apply Hlast, length_alter|]. split; [by rewrite <- app_assoc | done].
  - destruct Hok as [[? [=]] | Hmain]. eexists. split.
    { run_listener. rewrite Hp. cbn. rewrite Hmain. cbn. rewrite lookup_insert_eq. cbn.
      reflexivity. }
    cbn. split; [apply delete_insert_eq|]. split; [intros Hid; by apply delete_insert_id|].
    split; [by apply Hlast|]. split; [by rewrite <- app_assoc | done].
Qed.

Lemma attach_then_detach_witness :
  ∃ m',
    (_onFrameAttached "main" None;; _onFrameDetached "main") manager0 = (Returned (), m')
    ∧ _frames m' = ∅
    ∧ (detached <$> objects m' !! 0%nat) = Some true
    ∧ emitted m' = [FrameAttached 0%nat; FrameDetached 0%nat]
    ∧ _mainFrame m' = Some 0%nat.
Proof.
  destruct (attach_then_detach manager0 "main" None) as (m' & H & _ & Hf & Hd & He & Hm).
  - right. reflexivity.
  - exists m'. split; [exact H|]. split; [apply Hf; reflexivity|].
    split; [exact Hd|]. split; [exact He | exact Hm].
Defined.

(** ** The context registry *)

Lemma contextCreated_twice (cid : string) (o : Frame) :
  frame_contexts (_contextCreated "utility" cid (_contextCreated "main" cid o))
  = ("utility", cid) :: ("main", cid)
    :: filter (λ rc, rc.1 ≠ "utility") (filter (λ rc, rc.1 ≠ "main") (frame_contexts o)).
Proof.
  unfold _contextCreated. cbn [frame_contexts]. by rewrite filter_cons_True.
Qed.

(** X9. An execution-context-created notification never throws: the context
    is registered under its identifier, in place of any context registered
    there, owned by the frame its auxiliary data resolves to; when that frame
    is known, its roles main and utility both designate the new context; when
    the data is absent, names no frame or names an unknown frame, the context
    is registered with no owner and no frame object changes. Nothing is
    emitted. *)
Theorem contextCreated_registers (m : FrameManager) (cid : string)
    (auxData : option AuxData) :
  let owner : option FrameRef := (auxData ≫= aux_frameId) ≫= (_frames m !!.) in
  ∃ m',
    _onExecutionContextCreated cid auxData m = (Returned (), m')
    ∧ executionContextById m' cid = Some (mkContext owner)
    ∧ (∀ cid', cid' ≠ cid → executionContextById m' cid' = executionContextById m cid')
    ∧ _frames m' = _frames m ∧ _mainFrame m' = _mainFrame m ∧ emitted m' = emitted m
    ∧ match owner with
      | Some r =>
          (∀ o, objects m !! r = Some o →
             ∃ o', objects m' !! r = Some o'
                   ∧ (∀ role, role = "main" ∨ role = "utility" →
                        ∀ c, (role, c) ∈ frame_contexts o' ↔ c = cid)
                   ∧ frame_data o' = frame_data o ∧ childFrames o' = childFrames o)
          ∧ (∀ r', r' ≠ r → objects m' !! r' = objects m !! r')
      | None => objects m' = objects m
      end.
Proof.
  intros owner. subst owner. unfold mbind, executionContextById.
  destruct (option_bind _ _ _ (option_bind _ _ _ auxData)) as [r|] eqn:Hr.
  - eexists. split.
    { run_listener. rewrite Hr. cbn. reflexivity. }
    cbn. split; [apply lookup_insert_eq|].
    split; [intros cid' Hne; by apply lookup_insert_ne|].
    split; [done|]. split; [done|]. split; [done|]. split.
    + intros o Ho. rewrite !list_lookup_alter_eq, Ho. cbn [fmap option_fmap option_map].
      eexists. split; [reflexivity|]. split; [|done].
      intros role Hrole c. rewrite contextCreated_twice.
      rewrite !elem_of_cons, !list_elem_of_filter. cbn [fst].
      destruct Hrole as [-> | ->]; (split; [intuition congruence | intros ->]);
        [right; by left | by left].
    + intros r' Hr'. by rewrite !list_lookup_alter_ne.
  - eexists. split.
    { run_listener. rewrite Hr. cbn. reflexivity. }
    cbn. split; [apply lookup_insert_eq|].
    split; [intros cid' Hne; by apply lookup_insert_ne|]. done.
Qed.

Lemma contextCreated_registers_witness :
  ∃ m',
    _onExecutionContextCreated "ctx" (Some (mkAuxData (Some "child"))) manager1
    = (Returned (), m')
    ∧ executionContextById m' "ctx" = Some (mkContext (Some 1%nat))
    ∧ (frame_contexts <$> objects m' !! 1%nat) = Some [("utility", "ctx"); ("main", "ctx")]
    ∧ ∃ m'', _onExecutionContextCreated "lone" (Some (mkAuxData (Some "ghost"))) manager1
             = (Returned (), m'')
             ∧ executionContextById m'' "lone" = Some (mkContext None)
             ∧ objects m'' = objects manager1.
Proof.
  destruct (contextCreated_registers manager1 "ctx" (Some (mkAuxData (Some "child"))))
    as (m' & H & Hc & _).
  exists m'. split; [exact H|]. split; [exact Hc|]. split.
  - assert (m' = (_onExecutionContextCreated "ctx" (Some (mkAuxData (Some "child")))
                    manager1).2) as -> by by rewrite H.
    reflexivity.
  - destruct (contextCreated_registers manager1 "lone" (Some (mkAuxData (Some "ghost"))))
      as (m'' & H' & Hc' & _ & _ & _ & _ & Ho).
    exists m''. split; [exact H'|]. split; [exact Hc' | exact Ho].
Defined.

(** X10. An execution-context-destroyed notification for a registered context
    never throws: it removes that registration alone, unbinds the context from
    every role of its owner frame, if it has one, touches no other frame
    object and emits nothing. *)
Theorem contextDestroyed_unregisters (m : FrameManager) (cid : string)
    (c : ExecutionContext) :
  executionContextById m cid = Some c →
  ∃ m',
    _onExecutionContextDestroyed cid m = (Returned (), m')
    ∧ executionContextById m' cid = None
    ∧ (∀ cid', cid' ≠ cid → executionContextById m' cid' = executionContextById m cid')
    ∧ _frames m' = _frames m ∧ _mainFrame m' = _mainFrame m ∧ emitted m' = emitted m
    ∧ match context_frame c with
      | Some r =>
          (∀ o, objects m !! r = Some o →
             ∃ o', objects m' !! r = Some o'
                   ∧ (∀ rc, rc ∈ frame_contexts o' ↔ rc ∈ frame_contexts o ∧ rc.2 ≠ cid)
                   ∧ frame_data o' = frame_data o)
          ∧ (∀ r', r' ≠ r → objects m' !! r' = objects m !! r')
      | None => objects m' = objects m
      end.
Proof.
  unfold executionContextById. intros Hc. destruct c as [[r|]].
  - eexists. split.
    { run_listener. rewrite Hc. cbn. reflexivity. }
    cbn. split; [apply lookup_delete_eq|].
    split; [intros cid' Hne; by apply lookup_delete_ne|].
    split; [done|]. split; [done|]. split; [done|]. split.
    + intros o Ho. rewrite list_lookup_alter_eq, Ho. cbn. eexists.
      split; [reflexivity|]. split; [|done]. cbn.
      intros rc. rewrite list_elem_of_filter. tauto.
    + intros r' Hr'. by rewrite list_lookup_alter_ne.
  - eexists. split.
    { run_listener. rewrite Hc. cbn. reflexivity. }
    cbn. split; [apply lookup_delete_eq|].
    split; [intros cid' Hne; by apply lookup_delete_ne|]. done.
Qed.

(** X11. A context created and then destroyed leaves the registry without its
    identifier, as it was if the identifier was free, and leaves no role of
    its owner frame designating it. *)
Theorem context_created_then_destroyed (m : FrameManager) (cid : string)
    (auxData : option AuxData) :
  let owner : option FrameRef := (auxData ≫= aux_frameId) ≫= (_frames m !!.) in
  ∃ m',
    (_onExecutionContextCreated cid auxData;; _onExecutionContextDestroyed cid) m
    = (Returned (), m')
    ∧ _contextIdToContext m' = delete cid (_contextIdToContext m)
    ∧ (executionContextById m cid = None → _contextIdToContext m' = _contextIdToContext m)
    ∧ (∀ r o, owner = Some r → objects m !! r = Some o →
         ∃ o', objects m' !! r = Some o'
               ∧ (∀ role, (role, cid) ∉ frame_contexts o')
               ∧ (∀ rc, rc ∈ frame_contexts o' → rc ∈ frame_contexts o)).
Proof.
  intros owner. subst owner. unfold mbind, executionContextById.
  destruct (option_bind _ _ _ (option_bind _ _ _ auxData)) as [r|] eqn:Hr.
  - eexists. split.
    { run_listener. rewrite Hr. cbn. rewrite lookup_insert_eq. cbn. reflexivity. }
    cbn. split; [apply delete_insert_eq|]. split; [intros Hc; by apply delete_insert_id|].
    intros r' o [= <-] Ho. rewrite !list_lookup_alter_eq, Ho.
    cbn [fmap option_fmap option_map]. eexists. split; [reflexivity|].
    unfold Frame._contextDestroyed. cbn [frame_contexts]. rewrite contextCreated_twice.
    split.
    + intros role Hin. apply list_elem_of_filter in Hin as [Hne _]. by apply Hne.
    + intros rc Hin. apply list_elem_of_filter in Hin as [Hne Hin].
      rewrite !elem_of_cons, !list_elem_of_filter in Hin.
      destruct Hin as [-> | [-> | (_ & _ & Hin)]]; [by destruct Hne.. | done].
  - eexists. split.
    { run_listener. rewrite Hr. cbn. rewrite lookup_insert_eq. cbn. reflexivity. }
    cbn. split; [apply delete_insert_eq|]. split; [intros Hc; by apply delete_insert_id|].
    intros r o [=].
Qed.

Lemma contextDestroyed_unregisters_witness :
  executionContextById manager3 "ctx" = Some (mkContext (Some 1%nat))
  ∧ ∃ m' o',
      _onExecutionContextDestroyed "ctx" manager3 = (Returned (), m')
      ∧ executionContextById m' "ctx" = None
      ∧ emitted m' = emitted manager3
      ∧ objects m' !! 1%nat = Some o'
      ∧ ∀ rc, rc ∈ frame_contexts o'
              ↔ rc ∈ [("utility", "ctx"); ("main", "ctx")] ∧ rc.2 ≠ "ctx".
Proof.
  split; [reflexivity|].
  destruct (contextDestroyed_unregisters manager3 "ctx" (mkContext (Some 1%nat)))
    as (m' & H & Hgone & _ & _ & _ & He & Hobj & _); [reflexivity|].
  destruct (Hobj (mkFrame (Some 0%nat) [] "" "" false [("utility", "ctx"); ("main", "ctx")]
                    (mkFrameData "child" (Some "") ∅)))
    as (o' & Ho' & Hctx & _); [reflexivity|].
  exists m', o'. split; [exact H|]. split; [exact Hgone|]. split; [exact He|].
  split; [exact Ho' | exact Hctx].
Defined.

Lemma context_created_then_destroyed_witness :
  ∃ m' o',
    (_onExecutionContextCreated "ctx" (Some (mkAuxData (Some "child")));;
     _onExecutionContextDestroyed "ctx") manager1 = (Returned (), m')
    ∧ _contextIdToContext m' = _contextIdToContext manager1
    ∧ objects m' !! 1%nat = Some o'
    ∧ ∀ role, (role, "ctx") ∉ frame_contexts o'.
Proof.
  destruct (context_created_then_destroyed manager1 "ctx" (Some (mkAuxData (Some "child"))))
    as (m' & H & _ & Hfree & Hobj).
  destruct (Hobj 1%nat
              (mkFrame (Some 0%nat) [] "" "" false [] (mkFrameData "child" (Some "") ∅)))
    as (o' & Ho' & Hnone & _); [reflexivity | reflexivity |].
  exists m', o'. split; [exact H|]. split; [apply Hfree; reflexivity|].
  split; [exact Ho' | exact Hnone].
Defined.

(** ** normalizeWaitUntil, further *)

Lemma check_conditions_None (l : list string) :
  check_conditions l = None → Forall known_condition l.
Proof.
  induction l as [|c l IH]; cbn; [constructor|].
  destruct (decide (c = "load")) as [->|H1].
  { cbn. intros H. constructor; [by left | by apply IH]. }
  destruct (decide (c = "domcontentloaded")) as [->|H2].
  { cbn. intros H. constructor; [by right | by apply IH]. }
  rewrite !bool_decide_eq_true_2 by done. done.
Qed.

Lemma check_conditions_first (pre post : list string) (c : string) :
  Forall known_condition pre → ¬ known_condition c →
  check_conditions (pre ++ c :: post)
  = Some (mkExn Error ("Unknown waitUntil condition: " +:+ c)).
Proof.
  intros Hpre Hc. induction Hpre as [|c' pre Hc' _ IH]; cbn.
  - rewrite !bool_decide_eq_true_2; [done | |]; intros ->; apply Hc; [by right | by left].
  - destruct Hc' as [-> | ->]; cbn; exact IH.
Qed.

(** X12. What [normalizeWaitUntil] returns is the list of the tokens it was
    given, all of them known conditions, and normalizing that list again
    returns it unchanged; what it throws names the first token of the list
    that is not a known condition, whatever follows it. *)
Theorem normalizeWaitUntil_result :
  (∀ waitUntil l,
     normalizeWaitUntil waitUntil = inr l →
     l = tokens_of waitUntil ∧ Forall known_condition l
     ∧ normalizeWaitUntil (Tokens l) = inr l)
  ∧ (∀ waitUntil pre c post,
       tokens_of waitUntil = pre ++ c :: post →
       Forall known_condition pre → ¬ known_condition c →
       normalizeWaitUntil waitUntil
       = inl (mkExn Error ("Unknown waitUntil condition: " +:+ c))).
Proof.
  split.
  - intros waitUntil l. unfold normalizeWaitUntil.
    change (match waitUntil with Token c => [c] | Tokens l => l end)
      with (tokens_of waitUntil).
    destruct (check_conditions (tokens_of waitUntil)) eqn:Hcheck; [done|].
    intros [= <-]. split; [done|]. split; [by apply check_conditions_None|].
    cbn. by rewrite Hcheck.
  - intros waitUntil pre c post Htokens Hpre Hc. unfold normalizeWaitUntil.
    change (match waitUntil with Token c => [c] | Tokens l => l end)
      with (tokens_of waitUntil).
    by rewrite Htokens, check_conditions_first.
Qed.

Lemma normalizeWaitUntil_result_witness :
  (["domcontentloaded"] = tokens_of (Token "domcontentloaded")
   ∧ Forall known_condition ["domcontentloaded"]
   ∧ normalizeWaitUntil (Tokens ["domcontentloaded"]) = inr ["domcontentloaded"])
  ∧ normalizeWaitUntil (Tokens ["load"; "networkidle0"; "bogus"])
    = inl (mkExn Error "Unknown waitUntil condition: networkidle0").
Proof.
  destruct normalizeWaitUntil_result as [Hok Hbad]. split.
  - apply Hok. reflexivity.
  - apply (Hbad (Tokens ["load"; "networkidle0"; "bogus"]) ["load"] "networkidle0" ["bogus"]).
    + reflexivity.
    + apply Forall_singleton. by left.
    + intros [H | H]; discriminate H.
Defined.

(** ** The navigation-wait protocol, further *)

(** X13. With a truthy timeout [waitForFrameNavigation] always returns or
    throws, whatever the browser does, and so does [navigateFrame] once its
    command is answered; with a falsy timeout and a frame that never
    navigates, [waitForFrameNavigation] stays suspended for ever, its
    next-navigation watchdog still subscribed. *)
Theorem wait_settles (env : Env) (this : FrameManager) (frame : FrameRef)
    (url : string) (options : Options) (w : World) :
  (truthy (timeout_of this options) = true →
     (waitForFrameNavigation env this frame options w).1 ≠ Suspended
     ∧ (is_Some (navigate_reply env) →
        (navigateFrame env this frame url options w).1 ≠ Suspended))
  ∧ (truthy (timeout_of this options) = false →
     ∀ conds, normalizeWaitUntil (waitUntil_of options) = inr conds →
     next_navigation env = None →
     ∃ w', waitForFrameNavigation env this frame options w = (Suspended, w')
           ∧ watchdogs w' = watchdogs w ++ [mkWatchdog frame None None None None false]).
Proof.
  destruct env as [reply next outcome response].
  unfold timeout_of, waitUntil_of. cbn [navigate_reply next_navigation]. split.
  - intros Ht. split.
    + run_world. rewrite Ht. explore; discriminate.
    + intros [[instant answer] ->]. run_world. rewrite Ht. explore; discriminate.
  - intros Ht conds Hn ->. run_world. rewrite Hn, Ht. cbn. rewrite lookup_last. cbn.
    by eexists.
Qed.

Lemma wait_settles_witness :
  ((waitForFrameNavigation env_unanswered manager1 0%nat
      (mkOptions (Some (Millis 500)) None None) world0).1 ≠ Suspended
   ∧ (navigateFrame env_slow manager1 0%nat "http://a/"
        (mkOptions (Some (Millis 500)) None None) world0).1 ≠ Suspended)
  ∧ ∃ w', waitForFrameNavigation (mkEnv None None None None) manager1 0%nat
            (mkOptions (Some Null) None None) world0 = (Suspended, w')
          ∧ watchdogs w' = [mkWatchdog 0%nat None None None None false].
Proof.
  split.
  - destruct (proj1 (wait_settles env_unanswered manager1 0%nat "http://a/"
                       (mkOptions (Some (Millis 500)) None None) world0)) as [Hwait _];
      [reflexivity|].
    split; [exact Hwait|].
    apply (proj1 (wait_settles env_slow manager1 0%nat "http://a/"
                    (mkOptions (Some (Millis 500)) None None) world0)); [reflexivity|].
    by eexists.
  - apply (proj2 (wait_settles (mkEnv None None None None) manager1 0%nat ""
                    (mkOptions (Some Null) None None) world0) eq_refl ["load"]);
      reflexivity.
Defined.

Lemma timer_restored (ts : gmap nat Z) (id : nat) (deadline : Z) :
  ts !! id = None →
  delete id (<[id := deadline]> ts) = ts
  ∧ delete id (delete id (<[id := deadline]> ts)) = ts.
Proof.
  intros Hid. rewrite delete_insert_id by done. split; [done|]. by apply delete_id.
Qed.

Lemma timers_issued_fresh (w : World) : timers_issued w → timers w !! timer_count w = None.
Proof.
  intros Hw. destruct (timers w !! timer_count w) as [d|] eqn:Hd; [|done].
  apply Hw in Hd. lia.
Qed.

Lemma take_app_app_length {A} (l k1 k2 : list A) :
  take (length l) ((l ++ k1) ++ k2) = l.
Proof. rewrite <- app_assoc. apply take_app_length. Qed.

(** X14. A call does not interfere with the waits around it: in a world whose
    pending timers bear identifiers issued before, a
    [waitForFrameNavigation] or [navigateFrame] that returns or throws leaves
    the set of pending timers exactly as it found it; and in every case, also
    suspended, the watchdogs that existed before the call are untouched and
    the clock has not run backwards. *)
Theorem wait_leaves_others_alone (env : Env) (this : FrameManager) (frame : FrameRef)
    (url : string) (options : Options) (w : World) :
  timers_issued w →
  ∀ out w',
    waitForFrameNavigation env this frame options w = (out, w')
    ∨ navigateFrame env this frame url options w = (out, w') →
    (out ≠ Suspended → timers w' = timers w)
    ∧ take (length (watchdogs w)) (watchdogs w') = watchdogs w
    ∧ now w ≤ now w'.
Proof.
  intros Hw out w'. destruct env as [reply next outcome response].
  assert (Hfresh := timers_issued_fresh w Hw).
  intros [H | H]; revert H; run_world; explore.
  all: intros [= <- <-]; cbn [timers watchdogs now].
  all: split; [intros Hout; try done;
               rewrite ?(proj2 (timer_restored _ _ _ Hfresh)),
                 ?(proj1 (timer_restored _ _ _ Hfresh)); reflexivity|].
  all: split; [rewrite ?take_app_app_length, ?take_app_length, ?firstn_all;
               reflexivity | lia].
Qed.

Lemma wait_leaves_others_alone_witness :
  timers_issued world1
  ∧ ∃ w', waitForFrameNavigation env_navigation manager1 0%nat
            (mkOptions (Some (Millis 500)) None None) world1
          = (Returned (Some "response of n1"), w')
          ∧ timers w' = timers world1
          ∧ take 1 (watchdogs w') = watchdogs world1
          ∧ now world1 ≤ now w'.
Proof.
  assert (Hissued : timers_issued world1).
  { intros id deadline H. unfold world1 in H. cbn [timers] in H.
    apply lookup_singleton_Some in H as [<- _]. cbn. lia. }
  split; [exact Hissued|]. eexists.
  destruct (wait_leaves_others_alone env_navigation manager1 0%nat ""
              (mkOptions (Some (Millis 500)) None None) world1 Hissued
              (Returned (Some "response of n1"))
              (waitForFrameNavigation env_navigation manager1 0%nat
                 (mkOptions (Some (Millis 500)) None None) world1).2)
    as (Ht & Hd & Hn).
  - left. vm_compute. reflexivity.
  - split; [vm_compute; reflexivity|]. split; [apply Ht; discriminate|].
    split; [exact Hd | exact Hn].
Defined.

(** X15. When the navigation is discovered and tracked to its outcome before
    the deadline of the timer, or with no timer armed, the call ends with that
    outcome:
    it returns the navigation response of the watchdog if the watchdog resolved
    with no value, and throws the very error value the watchdog resolved with
    otherwise, not a timeout error. *)
Theorem wait_ends_with_outcome (env : Env) (this : FrameManager) (frame : FrameRef)
    (url : string) (options : Options) (w : World) (conds : list string)
    (settled : Z) (value : option Exn) :
  normalizeWaitUntil (waitUntil_of options) = inr conds →
  navigation_outcome env = Some (settled, value) →
  let delay := timer_delay (to_delay (timeout_of this options)) in
  let outcome : Outcome (option Response) :=
    match value with
    | Some e => Threw e
    | None => Returned (navigation_response env)
    end in
  (∀ discovered navigationId u,
     next_navigation env = Some (discovered, (navigationId, u)) →
     falsy_id navigationId = false →
     truthy (timeout_of this options) = false
     ∨ (discovered < now w + delay ∧ settled < now w + delay) →
     (waitForFrameNavigation env this frame options w).1 = outcome)
  ∧ (∀ o answered navigationId,
       objects this !! frame = Some o →
       navigate_reply env = Some (answered, inr navigationId) →
       falsy_id navigationId = false →
       truthy (timeout_of this options) = false
       ∨ settled < (now w `max` answered) + delay →
       (navigateFrame env this frame url options w).1 = outcome).
Proof.
  destruct env as [reply next outcome response].
  unfold timeout_of, waitUntil_of. cbn [navigate_reply next_navigation navigation_outcome
                                         navigation_response].
  intros Hn ->. split.
  - intros discovered navigationId u -> Hid Hwin. revert Hwin.
    run_world. rewrite Hn. explore.
    all: intros [Hwin | Hwin]; try discriminate Hwin; try (cbn in *; lia).
    all: rewrite ?lookup_after_last; reflexivity.
  - intros o answered navigationId Ho -> Hid Hwin. revert Hwin.
    run_world. rewrite Hn, Ho. cbn. rewrite Hid. explore.
    all: intros [Hwin | Hwin]; try discriminate Hwin; try (cbn in *; lia).
    all: rewrite ?lookup_last; reflexivity.
Qed.

Lemma wait_ends_with_outcome_witness :
  (waitForFrameNavigation env_failed manager1 0%nat
     (mkOptions (Some (Millis 500)) None None) world0).1
  = Threw (mkExn Error "Navigation failed")
  ∧ (navigateFrame env_navigation manager1 0%nat "http://a/"
       (mkOptions (Some (Millis 500)) None None) world0).1
    = Returned (Some "response of n1").
Proof.
  split.
  - apply (proj1 (wait_ends_with_outcome env_failed manager1 0%nat ""
                    (mkOptions (Some (Millis 500)) None None) world0 ["load"]
                    200 (Some (mkExn Error "Navigation failed")) eq_refl eq_refl)
             100 (Some "n1") "http://a/"); [reflexivity | reflexivity |].
    right. vm_compute. split; reflexivity.
  - apply (proj2 (wait_ends_with_outcome env_navigation manager1 0%nat "http://a/"
                    (mkOptions (Some (Millis 500)) None None) world0 ["load"]
                    200 None eq_refl eq_refl)
             (mkFrame None [1%nat] "" "" false [] (mkFrameData "main" (Some "") ∅))
             10 (Some "n1")); [reflexivity | reflexivity | reflexivity |].
    right. vm_compute. reflexivity.
Defined.

(** X16. [navigateFrame] fails before anything is armed: on a frame that
    carries no frame data it throws a [TypeError] with the world untouched,
    the command not sent; and when the session rejects the navigate command it
    throws the error of the rejection, the world showing the command and no
    timer and no watchdog. *)
Theorem navigateFrame_fails_early (env : Env) (this : FrameManager) (frame : FrameRef)
    (url : string) (options : Options) (w : World) (conds : list string) :
  normalizeWaitUntil (waitUntil_of options) = inr conds →
  (objects this !! frame = None →
     ∃ e, navigateFrame env this frame url options w = (Threw e, w)
          ∧ exn_class e = TypeError)
  ∧ (∀ o instant e,
       objects this !! frame = Some o →
       navigate_reply env = Some (instant, inl e) →
       navigateFrame env this frame url options w
       = (Threw e,
          mkWorld (now w `max` instant) (timers w) (timer_count w) (watchdogs w)
            (effects w
             ++ [Sent "Page.navigate" (frameId (frame_data o)) (opt_referer options) url]))).
Proof.
  destruct env as [reply next outcome response]. unfold waitUntil_of.
  cbn [navigate_reply]. intros Hn. split.
  - intros Ho. eexists. run_world. rewrite Hn, Ho. cbn. split; reflexivity.
  - intros o instant e Ho ->. run_world. rewrite Hn, Ho. reflexivity.
Qed.

Lemma navigateFrame_fails_early_witness :
  (∃ e, navigateFrame env_rejected manager1 7%nat "http://a/" (mkOptions None None None)
          world0 = (Threw e, world0)
        ∧ exn_class e = TypeError)
  ∧ navigateFrame env_rejected manager1 1%nat "http://a/" (mkOptions None None None) world0
    = (Threw (mkExn Error "Protocol error (Page.navigate)"),
       mkWorld 10 ∅ 0 [] [Sent "Page.navigate" "child" None "http://a/"]).
Proof.
  destruct (navigateFrame_fails_early env_rejected manager1 7%nat "http://a/"
              (mkOptions None None None) world0 ["load"] eq_refl) as [H7 _].
  destruct (navigateFrame_fails_early env_rejected manager1 1%nat "http://a/"
              (mkOptions None None None) world0 ["load"] eq_refl) as [_ H1].
  split; [apply H7; reflexivity|].
  apply (H1 (mkFrame (Some 0%nat) [] "" "" false [] (mkFrameData "child" (Some "") ∅))
            10 (mkExn Error "Protocol error (Page.navigate)")); reflexivity.
Defined.

Ltac effects_leaf :=
  cbn [effects]; rewrite <- ?app_assoc; cbn [app]; eexists;
  (split; [first [reflexivity | symmetry; apply app_nil_r]|]);
  repeat apply Forall_cons_2; try apply Forall_nil_2; cbn; tauto.

(** X17. [waitForFrameNavigation] sends no command to the session.
    [navigateFrame], once its [waitUntil] has validated, sends exactly one,
    [Page.navigate], first of all its effects; on a manager as the listeners
    keep it, for a frame registered under an identifier, the command carries
    that identifier, with the referer and the url of the call. *)
Theorem commands_sent (env : Env) (this : FrameManager) (frame : FrameRef)
    (url : string) (options : Options) (w : World) :
  (∀ out w',
     waitForFrameNavigation env this frame options w = (out, w') →
     ∃ new, effects w' = effects w ++ new ∧ Forall (λ e, ¬ is_Sent e) new)
  ∧ (∀ id conds out w',
       consistent this → _frames this !! id = Some frame →
       normalizeWaitUntil (waitUntil_of options) = inr conds →
       navigateFrame env this frame url options w = (out, w') →
       ∃ new, effects w'
              = effects w ++ Sent "Page.navigate" id (opt_referer options) url :: new
              ∧ Forall (λ e, ¬ is_Sent e) new).
Proof.
  destruct env as [reply next outcome response]. unfold waitUntil_of. split.
  - intros out w'. run_world. explore.
    all: intros [= <- <-]; effects_leaf.
  - intros id conds out w' (Hvalid & Hkey & _) Hid Hn.
    destruct (lookup_lt_is_Some_2 (objects this) frame) as [o Ho]; [by eapply Hvalid|].
    rewrite <- (Hkey id frame o Hid Ho).
    run_world. rewrite Hn, Ho. explore.
    all: intros [= <- <-]; effects_leaf.
Qed.

Lemma commands_sent_witness :
  ∃ new,
    effects (navigateFrame env_navigation manager1 1%nat "http://a/"
               (mkOptions (Some (Millis 500)) None (Some "http://referer/")) world0).2
    = effects world0 ++ Sent "Page.navigate" "child" (Some "http://referer/") "http://a/" :: new
    ∧ Forall (λ e, ¬ is_Sent e) new.
Proof.
  apply (proj2 (commands_sent env_navigation manager1 1%nat "http://a/"
                  (mkOptions (Some (Millis 500)) None (Some "http://referer/")) world0)
           "child" ["load"] (Returned (Some "response of n1"))).
  - apply (deliver_all_consistent
             [Page_frameAttached "main" None; Page_frameAttached "child" (Some "main")]
             manager0 (fresh_consistent 30000)).
  - reflexivity.
  - reflexivity.
  - vm_compute. reflexivity.
Defined.

(** X18. When a timer is armed and the next navigation of the frame is not
    discovered before its deadline, which comes after the delay the timer runs
    for, 1 ms for a timeout below 1 or above 2^31 - 1,
    [waitForFrameNavigation] throws the
    timeout error at the deadline having created the next-navigation watchdog
    alone: it disposes that watchdog, clears the timer, and never constructs
    a navigation watchdog. *)
Theorem timeout_in_first_phase (env : Env) (this : FrameManager) (frame : FrameRef)
    (options : Options) (w : World) (conds : list string) :
  let timeout := timeout_of this options in
  let deadline := now w + timer_delay (to_delay timeout) in
  let dog := length (watchdogs w) in
  normalizeWaitUntil (waitUntil_of options) = inr conds →
  truthy timeout = true →
  match next_navigation env with
  | Some (discovered, _) => deadline ≤ discovered
  | None => True
  end →
  waitForFrameNavigation env this frame options w
  = (Threw (mkExn TimeoutError (timeout_message timeout)),
     mkWorld (now w `max` deadline) (delete (timer_count w) (timers w))
       (S (timer_count w))
       (watchdogs w
        ++ [mkWatchdog frame None ((λ r, (r.1, None)) <$> next_navigation env)
              (snd <$> next_navigation env) None true])
       (effects w
        ++ [SetTimeout (timer_count w) (to_delay timeout); Created dog; Disposed dog;
            ClearTimeout (Some (timer_count w))])).
Proof.
  destruct env as [reply next outcome response].
  unfold timeout_of, waitUntil_of. cbn [next_navigation]. intros Hn Ht.
  run_world. rewrite Hn, Ht. explore.
  all: intros Hlate; try (cbn in *; lia).
  all: rewrite delete_insert_eq, <- ?app_assoc; cbn [app].
  all: by rewrite delete_delete_eq.
Qed.

Lemma timeout_in_first_phase_witness :
  waitForFrameNavigation (mkEnv None None None None) manager1 0%nat
    (mkOptions None None None) world0
  = (Threw (mkExn TimeoutError "Navigation timeout of 30000 ms exceeded"),
     mkWorld 30000 ∅ 1 [mkWatchdog 0%nat None None None None true]
       [SetTimeout 0 30000; Created 0%nat; Disposed 0%nat; ClearTimeout (Some 0%nat)])
  ∧ waitForFrameNavigation env_navigation manager1 0%nat
      (mkOptions (Some (Millis 2147483648)) None None) world0
    = (Threw (mkExn TimeoutError "Navigation timeout of 2147483648 ms exceeded"),
       mkWorld 1 ∅ 1
         [mkWatchdog 0%nat None (Some (100, None)) (Some (Some "n1", "http://a/")) None true]
         [SetTimeout 0 2147483648; Created 0%nat; Disposed 0%nat;
          ClearTimeout (Some 0%nat)]).
Proof.
  split.
  - apply (timeout_in_first_phase (mkEnv None None None None) manager1 0%nat
             (mkOptions None None None) world0 ["load"]);
      [reflexivity | reflexivity | exact I].
  - apply (timeout_in_first_phase env_navigation manager1 0%nat
             (mkOptions (Some (Millis 2147483648)) None None) world0 ["load"]);
      [reflexivity | reflexivity | vm_compute; discriminate].
Defined.

(** ** What notifications never do *)

Lemma evolves_refl (store : list Frame) : evolves store store.
Proof. intros r o Ho. exists o. by split. Qed.

Lemma evolves_trans (s1 s2 s3 : list Frame) : evolves s1 s2 → evolves s2 s3 → evolves s1 s3.
Proof.
  intros H12 H23 r o Ho. destruct (H12 r o Ho) as (o2 & Ho2 & I1 & I2).
  destruct (H23 r o2 Ho2) as (o3 & Ho3 & J1 & J2).
  exists o3. split; [done|]. split; [congruence | auto].
Qed.

Lemma evolves_alter (f : Frame → Frame) (r : nat) (store : list Frame) :
  keeps_identity f → evolves store (alter f r store).
Proof.
  intros Hf r' o Ho. rewrite list_lookup_alter. destruct (decide (r = r')) as [->|Hne].
  - rewrite Ho. cbn. exists (f o). split; [done | apply Hf].
  - exists o. by split.
Qed.

Lemma evolves_app (store new : list Frame) : evolves store (store ++ new).
Proof.
  intros r o Ho. exists o. split; [|done]. rewrite lookup_app_l; [done|].
  by eapply lookup_lt_Some.
Qed.

Lemma keeps_identity_set_data (g : FrameData → FrameData) :
  (∀ d, frameId (g d) = frameId d) →
  keeps_identity (λ o, Frame.set_data (g (frame_data o)) o).
Proof. intros Hg o. split; [apply Hg | done]. Qed.

Lemma deliver_evolves (m : FrameManager) (n : Notification) :
  evolves (objects m) (objects (deliver m n)).
Proof.
  destruct n as [id name | id pid | id | id url name nav | id url | cid aux | cid];
    run_listener.
  - destruct (_frames m !! id); cbn; [|apply evolves_refl].
    repeat case_bool_decide; cbn; apply evolves_alter, keeps_identity_set_data;
      by intros [].
  - destruct (option_bind _ _ _ pid) as [p|]; cbn.
    + apply (evolves_trans _ (alter (Frame.add_child (length (objects m))) p (objects m)));
        [|apply evolves_app].
      apply evolves_alter. by intros o.
    + case_bool_decide; cbn; apply evolves_app.
  - destruct (_frames m !! id); cbn; [|apply evolves_refl].
    apply evolves_alter. by intros o.
  - destruct (_frames m !! id) as [r|]; cbn; [|apply evolves_refl].
    apply (evolves_trans _ (alter (Frame._navigated url name) r (objects m)));
      [apply evolves_alter; by intros o|].
    apply evolves_alter, keeps_identity_set_data. by intros [].
  - destruct (_frames m !! id); cbn; [|apply evolves_refl].
    apply evolves_alter. by intros o.
  - destruct (option_bind _ _ _ (option_bind _ _ _ aux)) as [r|]; cbn; [|apply evolves_refl].
    apply (evolves_trans _ (alter (_contextCreated "main" cid) r (objects m)));
      apply evolves_alter; by intros o.
  - destruct (_contextIdToContext m !! cid) as [[[owner|]]|]; cbn;
      [|apply evolves_refl..].
    apply evolves_alter. by intros o.
Qed.

(** X19. No notification ever changes the identifier a frame object carries
    in its data, whatever else of the data it rewrites, and none marks a
    detached frame as attached again: through any sequence of notifications a
    frame object keeps its identifier, and once detached it stays detached,
    also when a new frame is attached under the same identifier. *)
Theorem frames_keep_identity (ns : list Notification) (m : FrameManager)
    (r : FrameRef) (o : Frame) :
  objects m !! r = Some o →
  ∃ o', objects (deliver_all ns m) !! r = Some o'
        ∧ frameId (frame_data o') = frameId (frame_data o)
        ∧ (detached o = true → detached o' = true).
Proof.
  revert m o. induction ns as [|n ns IH]; intros m o Ho; [by exists o|].
  destruct (deliver_evolves m n r o Ho) as (o1 & Ho1 & Hid1 & Hdet1).
  destruct (IH _ _ Ho1) as (o' & Ho' & Hid & Hdet).
  exists o'. split; [exact Ho'|]. split; [congruence | auto].
Qed.

Lemma frames_keep_identity_witness :
  ∃ o', objects (deliver_all [Page_frameAttached "child" (Some "main");
                              Page_navigationCommitted "child" "http://a/" "" (Some "n1")]
                   (deliver manager1 (Page_frameDetached "child"))) !! 1%nat = Some o'
        ∧ frameId (frame_data o') = "child"
        ∧ (true = true → detached o' = true).
Proof.
  apply (frames_keep_identity _ (deliver manager1 (Page_frameDetached "child")) 1%nat
           (mkFrame (Some 0%nat) [] "" "" true [] (mkFrameData "child" (Some "") ∅))).
  reflexivity.
Defined.

Ltac emits_none :=
  exists []; rewrite app_nil_r; split; [reflexivity|]; split; [cbn; lia|]; done.

Ltac emits_one :=
  eexists [_]; split; [reflexivity|]; split; [cbn; lia|];
  split; [intros [? [=]] | done].

(** X20. A notification appends at most one event to those emitted and never
    retracts one; it emits none when its listener throws, and the two context
    notifications emit none at all. *)
Theorem notification_emits_at_most_one (m : FrameManager) (n : Notification) :
  ∃ new, emitted (deliver m n) = emitted m ++ new
         ∧ (length new ≤ 1)%nat
         ∧ ((∃ e, (listener n m).1 = Threw e) → new = [])
         ∧ (context_notification n → new = []).
Proof.
  destruct n as [id name | id pid | id | id url name nav | id url | cid aux | cid];
    run_listener.
  - destruct (_frames m !! id); cbn; [|emits_none].
    repeat case_bool_decide; cbn; first [solve [emits_none] | solve [emits_one]].
  - destruct (option_bind _ _ _ pid); cbn; [emits_one|].
    case_bool_decide; cbn; [emits_one | emits_none].
  - destruct (_frames m !! id); cbn; [emits_one | emits_none].
  - destruct (_frames m !! id); cbn; [emits_one | emits_none].
  - destruct (_frames m !! id); cbn; [emits_one | emits_none].
  - destruct (option_bind _ _ _ (option_bind _ _ _ aux)); cbn; emits_none.
  - destruct (_contextIdToContext m !! cid) as [[[owner|]]|]; cbn; emits_none.
Qed.

Lemma notification_emits_at_most_one_witness :
  ∃ new, emitted (deliver manager1 (Page_frameDetached "ghost")) = emitted manager1 ++ new
         ∧ new = [].
Proof.
  destruct (notification_emits_at_most_one manager1 (Page_frameDetached "ghost"))
    as (new & He & _ & Hthrow & _).
  exists new. split; [exact He|]. apply Hthrow. by eexists.
Defined.

(** ** Forwarding to the page *)

(** X21. A console notification whose execution context is not registered is
    forwarded to the page, with no handles, when it has no arguments, and
    throws the [TypeError] of a dereferenced [null] as soon as it has one; for
    a registered context it is forwarded with one handle for each argument, in
    order, each owned by that context. A binding-called notification is always
    forwarded, with the context or with [null]. Neither changes the manager. *)
Theorem console_forwarding (m : FrameManager) (type location cid payload : string)
    (args : list string) :
  (executionContextById m cid = None →
     _onConsole type [] cid location m = (Returned (addConsoleMessage type [] location), m)
     ∧ (args ≠ [] →
        ∃ e, _onConsole type args cid location m = (Threw e, m) ∧ exn_class e = TypeError))
  ∧ (∀ c, executionContextById m cid = Some c →
       _onConsole type args cid location m
       = (Returned (addConsoleMessage type ((λ arg, (c, arg)) <$> args) location), m))
  ∧ _onBindingCalled cid payload m
    = (Returned (onBindingCalled payload (executionContextById m cid)), m).
Proof.
  split; [|split].
  - intros Hc. unfold _onConsole, get, mbind, M_bind. rewrite Hc. split; [done|].
    intros Hargs. destruct args as [|arg rest]; [done|]. by eexists.
  - intros c Hc. unfold _onConsole, get, mbind, M_bind. rewrite Hc.
    assert (Hmap : ∀ l, createHandles (S := FrameManager) (Some c) l m
                        = (Returned ((λ arg, (c, arg)) <$> l), m)).
    { induction l as [|arg l IH]; [done|].
      cbn. unfold mbind, M_bind. cbn. by rewrite IH. }
    by rewrite Hmap.
  - reflexivity.
Qed.

Lemma console_forwarding_witness :
  (_onConsole "log" [] "ghost" "a.js:1" manager3
   = (Returned (addConsoleMessage "log" [] "a.js:1"), manager3)
   ∧ ∃ e, _onConsole "log" ["x"] "ghost" "a.js:1" manager3 = (Threw e, manager3)
          ∧ exn_class e = TypeError)
  ∧ _onConsole "log" ["x"; "y"] "ctx" "a.js:1" manager3
    = (Returned (addConsoleMessage "log"
                   [(mkContext (Some 1%nat), "x"); (mkContext (Some 1%nat), "y")] "a.js:1"),
       manager3).
Proof.
  split.
  - destruct (proj1 (console_forwarding manager3 "log" "a.js:1" "ghost" "" ["x"]))
      as [Hnone Hone]; [reflexivity|].
    split; [exact Hnone | by apply Hone].
  - apply (proj1 (proj2 (console_forwarding manager3 "log" "a.js:1" "ctx" "" ["x"; "y"]))).
    reflexivity.
Defined.
